(** * Email-agent: the chat client (Streamlit_app.py) and the REST backend
      (Main.py), embedded in Rocq.

    Python [str] values are modelled as [string]: a sequence of code points
    below 256, one [ascii] per code point.  On that range [lower] and
    [strip] below are exact.  Characters outside it only occur in the
    program's literals, which are carried as their UTF-8 bytes. *)

From Stdlib Require Import String Ascii List Bool Arith ZArith Lia.
From Stdlib Require QArith.
From Stdlib Require Import DecimalString.
From Stdlib Require DecimalPos DecimalZ.
From ExtLib Require Import Structures.Monad Structures.MonadExc.
Import ListNotations.
Import MonadNotation.

Local Open Scope monad_scope.
#[local] Set Warnings "-register-all".

Local Open Scope list_scope.
Local Open Scope string_scope.

(* ------------------------------------------------------------------ *)
(** ** Python string primitives *)
(* ------------------------------------------------------------------ *)

Module Py.

(** [c.isspace()] on code points below 256: TAB..CR, FS..US, SPACE, NEL, NBSP. *)
Definition is_space (c : ascii) : bool :=
  let n := nat_of_ascii c in
  (((9 <=? n) && (n <=? 13)) || ((28 <=? n) && (n <=? 32))
   || (n =? 133) || (n =? 160))%nat.

(** [c.lower()] on code points below 256: A..Z and the accented capitals
    0xC0..0xDE (the multiplication sign 0xD7 apart) move up by 32. *)
Definition lower_char (c : ascii) : ascii :=
  let n := nat_of_ascii c in
  if (((65 <=? n) && (n <=? 90))
      || ((192 <=? n) && (n <=? 222) && negb (n =? 215)))%nat
  then ascii_of_nat (n + 32) else c.

(** [s.lower()] *)
Fixpoint lower (s : string) : string :=
  match s with
  | "" => ""
  | String c s' => String (lower_char c) (lower s')
  end.

(** [s.lstrip()] *)
Fixpoint lstrip (s : string) : string :=
  match s with
  | "" => ""
  | String c s' => if is_space c then lstrip s' else s
  end.

(** [s.rstrip()] *)
Fixpoint rstrip (s : string) : string :=
  match s with
  | "" => ""
  | String c s' =>
      let r := rstrip s' in
      if is_space c && (r =? "") then "" else String c r
  end.

(** [s.strip()] *)
Definition strip (s : string) : string := rstrip (lstrip s).

(** [s.startswith(sep)] *)
Fixpoint startswith (sep s : string) : bool :=
  match sep, s with
  | "", _ => true
  | String _ _, "" => false
  | String a sep', String b s' => Ascii.eqb a b && startswith sep' s'
  end.

(** [needle in hay] for two strings *)
Fixpoint contains (needle hay : string) : bool :=
  startswith needle hay
  || match hay with
     | "" => false
     | String _ hay' => contains needle hay'
     end.

(** [s.split(sep)] for a non-empty [sep]: the pieces between the
    non-overlapping occurrences of [sep], found from the left.  [skip]
    counts the characters of a matched separator still to be passed. *)
Fixpoint split_from (sep s : string) (skip : nat) : list string :=
  match s with
  | "" => [""]
  | String c s' =>
      match skip with
      | S k => split_from sep s' k
      | O =>
          if startswith sep s
          then "" :: split_from sep s' (String.length sep - 1)
          else match split_from sep s' 0 with
               | p :: ps => String c p :: ps
               | [] => [String c ""]
               end
      end
  end.

Definition split (sep s : string) : list string := split_from sep s 0.

(** [s[:n]] for [n >= 0] *)
Fixpoint slice_to (n : nat) (s : string) : string :=
  match n, s with
  | S k, String c s' => String c (slice_to k s')
  | _, _ => ""
  end.


(** [c.isdigit()] on code points below 256: 0..9 and the superscripts
    two, three and one. *)
Definition is_digit_char (c : ascii) : bool :=
  let n := nat_of_ascii c in
  (((48 <=? n) && (n <=? 57)) || (n =? 178) || (n =? 179) || (n =? 185))%nat.

(** [s.isdigit()] *)
Fixpoint all_digit_chars (s : string) : bool :=
  match s with
  | "" => true
  | String c s' => is_digit_char c && all_digit_chars s'
  end.

Definition isdigit (s : string) : bool :=
  negb (s =? "") && all_digit_chars s.

(** [str(n)] for an integer *)
Definition str_of_Z (n : Z) : string := NilZero.string_of_int (Z.to_int n).

(** *** Exceptions *)

(** An exception object: its class name and [str(e)]. *)
Record exn : Type := Exn { exn_class : string; exn_str : string }.

Inductive result (A : Type) : Type :=
| Ok (a : A)
| Raised (e : exn).
Arguments Ok {A} a.
Arguments Raised {A} e.

#[export] Instance Monad_result : Monad result :=
  {| ret := fun _ a => Ok a;
     bind := fun _ _ m k => match m with Ok a => k a | Raised e => Raised e end |}.

#[export] Instance Exc_result : MonadExc exn result :=
  {| raise := fun _ e => Raised e;
     catch := fun _ m h => match m with Ok a => Ok a | Raised e => h e end |}.

(** A computation that calls collaborators: its outcome and the calls it
    made, in order. *)
Definition traced (E A : Type) : Type := (result A * list E)%type.

#[export] Instance Monad_traced (E : Type) : Monad (traced E) :=
  {| ret := fun _ a => (Ok a, []);
     bind := fun _ _ m k =>
       match m with
       | (Ok a, t) => let (r, t') := k a in (r, t ++ t')%list
       | (Raised e, t) => (Raised e, t)
       end |}.

#[export] Instance Exc_traced (E : Type) : MonadExc exn (traced E) :=
  {| raise := fun _ e => (Raised e, []);
     catch := fun _ m h =>
       match m with
       | (Ok a, t) => (Ok a, t)
       | (Raised e, t) => let (r, t') := h e in (r, t ++ t')%list
       end |}.

(** A pure step that may raise. *)
Definition lift {E A : Type} (r : result A) : traced E A := (r, []).

(** One call [ev] to a collaborator, answering [r]. *)
Definition perform {E A : Type} (ev : E) (r : result A) : traced E A := (r, [ev]).

(** [l[i]] *)
Definition list_index {A : Type} (l : list A) (i : nat) : result A :=
  match nth_error l i with
  | Some a => Ok a
  | None => Raised (Exn "IndexError" "list index out of range")
  end.

(** The value of a decimal digit. *)
Definition digit_value (c : ascii) : option Z :=
  let n := nat_of_ascii c in
  if ((48 <=? n) && (n <=? 57))%nat then Some (Z.of_nat (n - 48)) else None.

(** White space for [int()] on code points below 256: TAB..CR and SPACE,
    which C's isspace accepts, and NEL and NBSP, which [int] reads as
    spaces.  FS..US, which [str.strip] removes, are not among them. *)
Definition is_int_space (c : ascii) : bool :=
  let n := nat_of_ascii c in
  (((9 <=? n) && (n <=? 13)) || (n =? 32) || (n =? 133) || (n =? 160))%nat.

Fixpoint skip_int_space (s : string) : string :=
  match s with
  | "" => ""
  | String c s' => if is_int_space c then skip_int_space s' else s
  end.

(** The digits at the head of [s], single underscores allowed between
    them, read in base 10 after [acc]: their value, their number added to
    [count], and the text that follows them.  Nothing when there is no
    digit or an underscore does not stand between two digits. *)
Fixpoint scan_digits (s : string) (acc count : Z) (after_digit : bool)
  : option (Z * Z * string) :=
  match s with
  | "" => if after_digit then Some (acc, count, "") else None
  | String c s' =>
      match digit_value c with
      | Some d => scan_digits s' (10 * acc + d)%Z (count + 1)%Z true
      | None =>
          if Ascii.eqb c "_" then
            if after_digit then scan_digits s' acc count false else None
          else if after_digit then Some (acc, count, s) else None
      end
  end.

(** [sys.get_int_max_str_digits()], as CPython 3.11 sets it. *)
Definition max_str_digits : Z := 4300.

Definition invalid_literal (s : string) : exn :=
  Exn "ValueError" ("invalid literal for int() with base 10: '" ++ s ++ "'").

Definition too_many_digits (count : Z) : exn :=
  Exn "ValueError"
      ("Exceeds the limit (4300 digits) for integer string conversion: value has "
       ++ str_of_Z count
       ++ " digits; use sys.set_int_max_str_digits() to increase the limit").

(** [int(s)] for a string, in the order of CPython: the leading white
    space, one optional sign, the digits, the cap on their number, the
    trailing white space, and nothing after it.  (The text of
    [invalid_literal] is that of a string whose repr is the string between
    single quotes.) *)
Definition int_of_str (s : string) : result Z :=
  let t := skip_int_space s in
  let (negative, ds) :=
    match t with
    | String "-" ds => (true, ds)
    | String "+" ds => (false, ds)
    | _ => (false, t)
    end in
  match scan_digits ds 0 0 false with
  | None => Raised (invalid_literal s)
  | Some (n, count, rest) =>
      if (max_str_digits <? count)%Z then Raised (too_many_digits count)
      else if skip_int_space rest =? "" then Ok (if negative then - n else n)%Z
      else Raised (invalid_literal s)
  end.

(** *** Values *)

(** The JSON-shaped values that travel between the collaborators, the
    backend and the chat client.  A dict keeps its items in insertion
    order. *)
Inductive pyval : Type :=
| PNone
| PBool (b : bool)
| PInt (n : Z)
| PStr (s : string)
| PList (l : list pyval)
| PDict (d : list (string * pyval)).

Definition dict : Type := list (string * pyval).

(** [bool(v)] *)
Definition truthy (v : pyval) : bool :=
  match v with
  | PNone => false
  | PBool b => b
  | PInt n => negb (n =? 0)%Z
  | PStr s => negb (s =? "")
  | PList l => match l with [] => false | _ => true end
  | PDict d => match d with [] => false | _ => true end
  end.

(** [a or b] *)
Definition py_or (a b : pyval) : pyval := if truthy a then a else b.

(** [v == s] for a string literal [s] *)
Definition eq_str (v : pyval) (s : string) : bool :=
  match v with
  | PStr x => x =? s
  | _ => false
  end.

(** [d[k]] as an option *)
Fixpoint dict_lookup (k : string) (d : dict) : option pyval :=
  match d with
  | [] => None
  | (k', v) :: d' => if k' =? k then Some v else dict_lookup k d'
  end.

(** [k in d] *)
Definition dict_has (k : string) (d : dict) : bool :=
  match dict_lookup k d with Some _ => true | None => false end.

(** [d.get(k, default)] *)
Definition dict_get_default (k : string) (default : pyval) (d : dict) : pyval :=
  match dict_lookup k d with Some v => v | None => default end.

(** [d.get(k)] *)
Definition dict_get (k : string) (d : dict) : pyval := dict_get_default k PNone d.

(** [d[k] = v]: an existing key keeps its place, a new one goes last. *)
Fixpoint dict_set (k : string) (v : pyval) (d : dict) : dict :=
  match d with
  | [] => [(k, v)]
  | (k', v') :: d' =>
      if k' =? k then (k, v) :: d' else (k', v') :: dict_set k v d'
  end.

(** [d.update(items)] *)
Definition dict_update (d : dict) (items : list (string * pyval)) : dict :=
  fold_left (fun acc kv => dict_set (fst kv) (snd kv) acc) items d.

(** [type(v).__name__] *)
Definition type_name (v : pyval) : string :=
  match v with
  | PNone => "NoneType"
  | PBool _ => "bool"
  | PInt _ => "int"
  | PStr _ => "str"
  | PList _ => "list"
  | PDict _ => "dict"
  end.

Definition not_subscriptable (v : pyval) : exn :=
  Exn "TypeError" ("'" ++ type_name v ++ "' object is not subscriptable").

Definition no_attribute (v : pyval) (name : string) : exn :=
  Exn "AttributeError"
      ("'" ++ type_name v ++ "' object has no attribute '" ++ name ++ "'").

(** [str(v)]; [repr] stands for Python's rendering of lists and dicts. *)
Definition py_str (repr : pyval -> string) (v : pyval) : string :=
  match v with
  | PNone => "None"
  | PBool true => "True"
  | PBool false => "False"
  | PInt n => str_of_Z n
  | PStr s => s
  | PList _ | PDict _ => repr v
  end.

(** [int(v)] *)
Definition py_int (v : pyval) : result Z :=
  match v with
  | PInt n => Ok n
  | PBool b => Ok (if b then 1 else 0)%Z
  | PStr s => int_of_str s
  | _ => Raised (Exn "TypeError"
           "int() argument must be a string, a bytes-like object or a real number")
  end.

(** [v[:n]] *)
Definition py_slice_to (n : nat) (v : pyval) : result pyval :=
  match v with
  | PStr s => Ok (PStr (slice_to n s))
  | PList l => Ok (PList (firstn n l))
  | PDict _ => Raised (Exn "TypeError" "unhashable type: 'slice'")
  | _ => Raised (not_subscriptable v)
  end.

(** [v[k]] for a string key *)
Definition py_getitem (v : pyval) (k : string) : result pyval :=
  match v with
  | PDict d =>
      match dict_lookup k d with
      | Some x => Ok x
      | None => Raised (Exn "KeyError" ("'" ++ k ++ "'"))
      end
  | PList _ =>
      Raised (Exn "TypeError" "list indices must be integers or slices, not str")
  | PStr _ =>
      Raised (Exn "TypeError" "string indices must be integers, not 'str'")
  | _ => Raised (not_subscriptable v)
  end.

(** [v[0]] *)
Definition py_getitem0 (v : pyval) : result pyval :=
  match v with
  | PList (x :: _) => Ok x
  | PList [] => Raised (Exn "IndexError" "list index out of range")
  | PStr (String c _) => Ok (PStr (String c ""))
  | PStr "" => Raised (Exn "IndexError" "string index out of range")
  | PDict _ => Raised (Exn "KeyError" "0")
  | _ => Raised (not_subscriptable v)
  end.

(** [v.strip()] *)
Definition py_strip (v : pyval) : result pyval :=
  match v with
  | PStr s => Ok (PStr (strip s))
  | _ => Raised (no_attribute v "strip")
  end.

(** A keyword argument: left out by the caller, or given. *)
Inductive kwarg (A : Type) : Type :=
| Omitted
| Given (a : A).
Arguments Omitted {A}.
Arguments Given {A} a.

End Py.

(* ------------------------------------------------------------------ *)
(** ** Main.py: the REST backend *)
(* ------------------------------------------------------------------ *)

Module Main.
Import Py.

(** The collaborators of the handlers: the mail client
    (gmail_client.py), the completion API and the Django settings.  A
    collaborator answers a call with a value or raises. *)
Record world : Type := {
  send_message : string -> string -> string -> result pyval;
  list_messages : kwarg (option string) -> Z -> result (list dict);
  modify_message_labels :
    pyval -> kwarg (list string) -> kwarg (list string) -> result pyval;
  ChatCompletion_create :
    pyval -> list (string * string) -> Z -> QArith_base.Q -> result pyval;
  OPENAI_API_KEY : option pyval;
  OPENAI_MODEL : option pyval;
  repr : pyval -> string
}.

(** The calls a handler makes, with their arguments. *)
Inductive call : Type :=
| call_send_message (to subject body : string)
| call_list_messages (query : kwarg (option string)) (max_results : Z)
| call_modify_message_labels
    (message_id : pyval) (add_labels remove_labels : kwarg (list string))
| call_ChatCompletion_create
    (model : pyval) (messages : list (string * string))
    (max_tokens : Z) (temperature : QArith_base.Q).

Record Response : Type := { data : pyval; status : Z }.

Definition HTTP_200_OK : Z := 200.
Definition HTTP_400_BAD_REQUEST : Z := 400.
Definition HTTP_500_INTERNAL_SERVER_ERROR : Z := 500.

(** [Response(data)] *)
Definition respond (v : pyval) : Response := {| data := v; status := HTTP_200_OK |}.

(** [Response({"error": str(e)}, status=HTTP_500_INTERNAL_SERVER_ERROR)];
    the handler also logs the exception. *)
Definition server_error (e : exn) : Response :=
  {| data := PDict [("error", PStr (exn_str e))];
     status := HTTP_500_INTERNAL_SERVER_ERROR |}.

(** *** send_view *)

Record SendRequest : Type := { to : string; subject : string; body : string }.

(** Modelled from the spec: one field of SendEmailSerializer, a required,
    non-empty string; a failure names the field and carries a message
    (the texts are Django REST framework's). *)
Definition required_field (name : string) (d : dict) : string + (string * pyval) :=
  match dict_lookup name d with
  | Some (PStr s) =>
      if s =? "" then inr (name, PList [PStr "This field may not be blank."])
      else inl s
  | Some _ => inr (name, PList [PStr "Not a valid string."])
  | None => inr (name, PList [PStr "This field is required."])
  end.

(** Modelled from the spec: the field-level messages of a failure. *)
Definition field_errors (r : string + (string * pyval)) : dict :=
  match r with inl _ => [] | inr e => [e] end.

(** Modelled from the spec: SendEmailSerializer (serializers.py is not
    among the sources).  The spec has [to], [subject] and [body] validated
    as non-empty strings, and a failure answered with field-level
    messages. *)
Definition SendEmailSerializer (request_data : pyval) : SendRequest + dict :=
  match request_data with
  | PDict d =>
      match required_field "to" d, required_field "subject" d,
            required_field "body" d with
      | inl t, inl s, inl b => inl {| to := t; subject := s; body := b |}
      | rt, rs, rb => inr (field_errors rt ++ field_errors rs ++ field_errors rb)%list
      end
  | _ => inr [("non_field_errors", PList [PStr "Invalid data. Expected a dictionary."])]
  end.

(** Lines 77-85: the response body built from what [send_message] returned. *)
Definition send_result (sent_result : pyval) : dict :=
  let result := [("ok", PBool true)] in
  match sent_result with
  | PDict d =>
      let result :=
        match dict_lookup "id" d with
        | Some v => dict_set "message_id" v result
        | None => result
        end in
      dict_update result (filter (fun kv => negb (dict_has (fst kv) result)) d)
  | _ => dict_set "result" sent_result result
  end.

Definition send_view (W : world) (request_data : pyval) : traced call Response :=
  match SendEmailSerializer request_data with
  | inr errors => ret {| data := PDict errors; status := HTTP_400_BAD_REQUEST |}
  | inl data =>
      catch
        (sent_result <- perform (call_send_message (to data) (subject data) (body data))
                                (send_message W (to data) (subject data) (body data)) ;;
         ret (respond (PDict (send_result sent_result))))
        (fun e => ret (server_error e))
  end.

(** *** list_view *)

(** [request.GET]: the query string's pairs, in order. *)
Definition QueryDict : Type := list (string * string).

(** [GET.get(k)]: the last value given for [k]. *)
Fixpoint qd_get (k : string) (q : QueryDict) : option string :=
  match q with
  | [] => None
  | (k', v) :: q' =>
      match qd_get k q' with
      | Some x => Some x
      | None => if k' =? k then Some v else None
      end
  end.

(** [try: limit = int(request.GET.get("limit", default))
     except Exception: limit = default] *)
Definition parse_limit (GET : QueryDict) (default : Z) : Z :=
  let raw := match qd_get "limit" GET with
             | Some s => PStr s
             | None => PInt default
             end in
  match py_int raw with
  | Ok n => n
  | Raised _ => default
  end.

(** Lines 125-136: the simplified shape of one raw message. *)
Definition simplified_message (m : dict) : result pyval :=
  let id := dict_get "id" m in
  let threadId := dict_get "threadId" m in
  let from := py_or (py_or (dict_get "from" m) (dict_get "sender" m))
                    (dict_get "emailFrom" m) in
  let to := dict_get "to" m in
  let subject := py_or (py_or (dict_get "subject" m) (dict_get "title" m))
                       (dict_get "header_subject" m) in
  let snippet := dict_get "snippet" m in
  let time := py_or (py_or (dict_get "time" m) (dict_get "date" m))
                    (dict_get "internalDate" m) in
  body <- py_slice_to 2000 (py_or (dict_get "body" m) (PStr "")) ;;
  ret (PDict [("id", id); ("threadId", threadId); ("from", from); ("to", to);
              ("subject", subject); ("snippet", snippet); ("time", time);
              ("body", body)]).

(** The loop of lines 123-137. *)
Fixpoint simplify_all (msgs : list dict) (simplified : list pyval)
  : result (list pyval) :=
  match msgs with
  | [] => ret simplified
  | m :: msgs' =>
      x <- simplified_message m ;;
      simplify_all msgs' (simplified ++ [x])%list
  end.

Definition list_view (W : world) (GET : QueryDict) : traced call Response :=
  let q := qd_get "q" GET in
  let limit := parse_limit GET 10 in
  catch
    (msgs <- perform (call_list_messages (Given q) limit)
                     (list_messages W (Given q) limit) ;;
     simplified <- lift (simplify_all msgs []) ;;
     ret (respond (PList simplified)))
    (fun e => ret (server_error e)).

(** *** summary_view *)

(** The line feed of the f-strings. *)
Definition nl : string := String (ascii_of_nat 10) "".

(** [m.get("body") or m.get("snippet") or ""] *)
Definition snippet_of (m : dict) : pyval :=
  py_or (py_or (dict_get "body" m) (dict_get "snippet" m)) (PStr "").

Definition prompt_header : string :=
  "You are an assistant who summarizes a user's recent emails. "
  ++ "Summarize the main topics briefly and list any clear action items."
  ++ nl ++ nl.

(** [for i, s in enumerate(snippets, i): prompt += f"Email {i}:\n{s}\n\n"] *)
Fixpoint add_snippets (W : world) (snippets : list pyval) (i : Z) (prompt : string)
  : string :=
  match snippets with
  | [] => prompt
  | s :: rest =>
      add_snippets W rest (i + 1)%Z
        (prompt ++ "Email " ++ str_of_Z i ++ ":" ++ nl ++ py_str (repr W) s ++ nl ++ nl)
  end.

(** Lines 185-190: the text of the first choice, or [str(resp)]. *)
Definition summary_text (W : world) (resp : pyval) : pyval :=
  let attempt :=
    choices <- py_getitem resp "choices" ;;
    first <- py_getitem0 choices ;;
    message <- py_getitem first "message" ;;
    content <- py_getitem message "content" ;;
    py_strip content in
  match attempt with
  | Ok text => text
  | Raised _ => PStr (py_str (repr W) resp)
  end.

(** [getattr(settings, name, default)] *)
Definition getattr (setting : option pyval) (default : pyval) : pyval :=
  match setting with Some v => v | None => default end.

Definition summary_view (W : world) (GET : QueryDict) : traced call Response :=
  let limit := parse_limit GET 5 in
  catch
    (msgs <- perform (call_list_messages Omitted limit)
                     (list_messages W Omitted limit) ;;
     let snippets := map snippet_of msgs in
     if negb (truthy (getattr (OPENAI_API_KEY W) PNone)) then
       ret (respond (PDict [("snippets", PList snippets); ("summary", PNone);
                            ("warning", PStr "OPENAI_API_KEY not set in settings.")]))
     else
       let prompt := add_snippets W snippets 1 prompt_header in
       let model := getattr (OPENAI_MODEL W) (PStr "gpt-3.5-turbo") in
       let messages :=
         [("system", "Summarize emails concisely and list action items.");
          ("user", prompt)] in
       let temperature := QArith_base.Qmake 1 4 in
       resp <- perform (call_ChatCompletion_create model messages 400 temperature)
                       (ChatCompletion_create W model messages 400%Z temperature) ;;
       ret (respond (PDict [("snippets", PList snippets);
                            ("summary", summary_text W resp)])))
    (fun e => ret (server_error e)).

(** *** manage_spam *)

Definition client_error (message : string) : Response :=
  {| data := PDict [("error", PStr message)]; status := HTTP_400_BAD_REQUEST |}.

Definition manage_spam (W : world) (body : dict) : traced call Response :=
  let message_id := dict_get "message_id" body in
  let action := dict_get "action" body in
  if negb (truthy message_id) || negb (truthy action) then
    ret (client_error "message_id and action required")
  else
    let done (res : pyval) : traced call Response :=
      ret (respond (PDict [("ok", PBool true); ("result", res)])) in
    catch
      (if eq_str action "mark_spam" then
         res <- perform (call_modify_message_labels message_id (Given ["SPAM"]) Omitted)
                        (modify_message_labels W message_id (Given ["SPAM"]) Omitted) ;;
         done res
       else if eq_str action "unspam" || eq_str action "unmark_spam" then
         res <- perform (call_modify_message_labels message_id Omitted (Given ["SPAM"]))
                        (modify_message_labels W message_id Omitted (Given ["SPAM"])) ;;
         done res
       else
         ret (client_error "unknown action"))
      (fun e => ret (server_error e)).

End Main.

(* ------------------------------------------------------------------ *)
(** ** Streamlit_app.py: the chat client *)
(* ------------------------------------------------------------------ *)

Module Streamlit_app.
Import Py.

Definition nl : string := String (ascii_of_nat 10) "".

Definition BASE_URL : string := "http://127.0.0.1:8000/gmail/".
Definition SEND_URL : string := BASE_URL ++ "send/".
Definition LIST_URL : string := BASE_URL ++ "list/".
Definition SUMMARY_URL : string := BASE_URL ++ "summary/".

(** *** API helpers *)

Inductive http_method : Type := GET | POST.

(** One call of [requests.get] or [requests.post]. *)
Record http_request : Type := {
  method : http_method;
  url : string;
  params : list (string * pyval);
  json : option pyval;
  timeout : Z
}.

(** The response object: its status, the text of the [HTTPError] that
    [raise_for_status] raises for it, and what [resp.json()] gives. *)
Record http_response : Type := {
  status_code : Z;
  http_error : string;
  body_json : result pyval
}.

(** The collaborators of the chat client: the HTTP library (which raises
    on a connection failure or when the timeout of the request runs out),
    the date library and the clock. *)
Record world : Type := {
  http : http_request -> result http_response;
  (** [parsedate_to_datetime(v).strftime("%Y-%m-%d %H:%M")] *)
  parsedate_strftime : pyval -> result string;
  (** [datetime.fromtimestamp(n / 1000).strftime("%Y-%m-%d %H:%M")] *)
  fromtimestamp_strftime : Z -> result string;
  (** [datetime.now().strftime('%Y-%m-%d %H:%M')] *)
  now_strftime : string;
  repr : pyval -> string
}.

(** [resp.raise_for_status()] *)
Definition raise_for_status (resp : http_response) : result unit :=
  if ((400 <=? status_code resp) && (status_code resp <? 600))%Z
  then Raised (Exn "HTTPError" (http_error resp))
  else Ok tt.

(** [requests.get(url, params=params, timeout=timeout)] *)
Definition requests_get (W : world) (url : string) (params : list (string * pyval))
    (timeout : Z) : traced http_request http_response :=
  let req := {| method := GET; url := url; params := params; json := None;
                timeout := timeout |} in
  perform req (http W req).

(** [requests.post(url, json=json, timeout=timeout)] *)
Definition requests_post (W : world) (url : string) (json : pyval) (timeout : Z)
  : traced http_request http_response :=
  let req := {| method := POST; url := url; params := []; json := Some json;
                timeout := timeout |} in
  perform req (http W req).

Definition list_emails (W : world) (limit : Z) : traced http_request pyval :=
  catch
    (resp <- requests_get W LIST_URL [("limit", PInt limit)] 10 ;;
     _ <- lift (raise_for_status resp) ;;
     lift (body_json resp))
    (fun e => ret (PDict [("error", PStr (exn_str e))])).

Definition summarize_emails (W : world) (limit : Z) : traced http_request pyval :=
  catch
    (resp <- requests_get W SUMMARY_URL [("limit", PInt limit)] 10 ;;
     _ <- lift (raise_for_status resp) ;;
     lift (body_json resp))
    (fun e => ret (PDict [("error", PStr (exn_str e))])).

Definition send_email (W : world) (to subject body : string)
  : traced http_request pyval :=
  catch
    (let payload := PDict [("to", PStr to); ("subject", PStr subject);
                           ("body", PStr body)] in
     resp <- requests_post W SEND_URL payload 15 ;;
     _ <- lift (raise_for_status resp) ;;
     lift (body_json resp))
    (fun e => ret (PDict [("error", PStr (exn_str e))])).

(** [isinstance(v, (int, float))] *)
Definition is_number (v : pyval) : bool :=
  match v with PInt _ | PBool _ => true | _ => false end.

(** [v.isdigit()] *)
Definition py_isdigit (v : pyval) : result bool :=
  match v with
  | PStr s => Ok (isdigit s)
  | _ => Raised (no_attribute v "isdigit")
  end.

Definition format_time (W : world) (raw_time : pyval) : string :=
  if negb (truthy raw_time) then ""
  else
    match parsedate_strftime W raw_time with
    | Ok text => text
    | Raised _ =>
        let epoch : result (option string) :=
          numeric <- (if is_number raw_time then ret true else py_isdigit raw_time) ;;
          if (numeric : bool) then
            n <- py_int raw_time ;;
            text <- fromtimestamp_strftime W n ;;
            ret (Some text)
          else ret None in
        match epoch with
        | Ok (Some text) => text
        | _ => py_str (repr W) raw_time
        end
    end.

(** *** Chat input *)

(** [e.get(k, default)] *)
Definition py_get (e : pyval) (k : string) (default : pyval) : result pyval :=
  match e with
  | PDict d => Ok (dict_get_default k default d)
  | _ => Raised (no_attribute e "get")
  end.

(** ["error" in data] *)
Definition has_error (data : pyval) : result bool :=
  match data with
  | PDict d => Ok (dict_has "error" d)
  | PList l => Ok (existsb (fun v => eq_str v "error") l)
  | PStr s => Ok (contains "error" s)
  | _ => Raised (Exn "TypeError"
           ("argument of type '" ++ type_name data ++ "' is not iterable"))
  end.

(** The items a [for] loop over [data] visits. *)
Definition py_iter (data : pyval) : result (list pyval) :=
  match data with
  | PList l => Ok l
  | PDict d => Ok (map (fun kv => PStr (fst kv)) d)
  | PStr s => Ok (map (fun c => PStr (String c "")) (list_ascii_of_string s))
  | _ => Raised (Exn "TypeError" ("'" ++ type_name data ++ "' object is not iterable"))
  end.

(** [reply += v] *)
Definition py_append (reply : string) (v : pyval) : result string :=
  match v with
  | PStr s => Ok (reply ++ s)
  | _ => Raised (Exn "TypeError"
           ("can only concatenate str (not " ++ String (ascii_of_nat 34) ""
            ++ type_name v ++ String (ascii_of_nat 34) "" ++ ") to str"))
  end.

(** The branch of the [if]/[elif] chain on [p] (lines 96, 109, 118, 140). *)
Inductive intent : Type := LIST_EMAILS | SUMMARIZE | SEND_EMAIL | UNKNOWN.

Definition classify (p : string) : intent :=
  if contains "list" p && contains "email" p then LIST_EMAILS
  else if contains "summarize" p then SUMMARIZE
  else if contains "send an email to" p then SEND_EMAIL
  else UNKNOWN.

(** [p = prompt.lower().strip()] (line 94) *)
Definition normalize (prompt : string) : string := strip (lower prompt).

(** Lines 104-107: the four lines added to [reply] for item [e],
    numbered [i]. *)
Definition add_entry (W : world) (i : Z) (e : pyval) (reply : string) : result string :=
  subject <- py_get e "subject" (PStr "(No subject)") ;;
  let reply := reply ++ "**" ++ str_of_Z i ++ ". " ++ py_str (repr W) subject
                     ++ "**" ++ nl in
  from <- py_get e "from" PNone ;;
  let reply := reply ++ "- From: " ++ py_str (repr W) from ++ nl in
  time <- py_get e "time" PNone ;;
  let reply := reply ++ "- Time: " ++ format_time W time ++ nl in
  body <- py_get e "body" PNone ;;
  ret (reply ++ "- Body: " ++ py_str (repr W) body ++ nl ++ nl).

(** [for i, e in enumerate(items, i): ...] *)
Fixpoint add_entries (W : world) (items : list pyval) (i : Z) (reply : string)
  : result string :=
  match items with
  | [] => ret reply
  | e :: rest =>
      reply' <- add_entry W i e reply ;;
      add_entries W rest (i + 1)%Z reply'
  end.

Definition list_header : string := "📩 **Latest Emails:**" ++ nl ++ nl.

(** Lines 99-107 *)
Definition list_reply (W : world) (data : pyval) : result string :=
  failed <- has_error data ;;
  if (failed : bool) then
    e <- py_getitem data "error" ;;
    ret ("⚠️ Failed to fetch emails: " ++ py_str (repr W) e)
  else
    items <- py_iter data ;;
    add_entries W items 1 list_header.

(** Lines 112-116 *)
Definition summary_reply (W : world) (data : pyval) : result string :=
  failed <- has_error data ;;
  if (failed : bool) then
    e <- py_getitem data "error" ;;
    ret ("⚠️ Failed to summarize emails: " ++ py_str (repr W) e)
  else
    summary <- py_get data "summary" (PStr (py_str (repr W) data)) ;;
    py_append ("📝 **Inbox Summary:**" ++ nl ++ nl) summary.

(** Lines 119-124: the recipient and the body read from the prompt. *)
Definition parse_send (prompt : string) : result (string * string) :=
  after <- list_index (split "send an email to" prompt) 1 ;;
  let parts := split "saying" (strip after) in
  first <- list_index parts 0 ;;
  let recipient := strip first in
  body <- (if (1 <? List.length parts)%nat
           then second <- list_index parts 1 ;; ret (strip second)
           else ret "Hello!") ;;
  ret (recipient, body).

Definition extract (prompt : string) : string * string :=
  match parse_send prompt with
  | Ok found => found
  | Raised _ => ("unknown@example.com", "Hello!")
  end.

(** [body[:30] or "No subject"] (line 125) *)
Definition subject_of (body : string) : string :=
  let s := slice_to 30 body in
  if s =? "" then "No subject" else s.

(** Lines 129-138 *)
Definition send_reply (W : world) (recipient subject body : string) (data : pyval)
  : result string :=
  failed <- has_error data ;;
  if (failed : bool) then
    e <- py_getitem data "error" ;;
    ret ("⚠️ Failed to send email: " ++ py_str (repr W) e)
  else
    ret ("✅ **Email Sent**" ++ nl ++ nl
         ++ "- To: " ++ recipient ++ "  " ++ nl
         ++ "- Subject: " ++ subject ++ "  " ++ nl
         ++ "- Body: " ++ body ++ "  " ++ nl
         ++ "- Time: " ++ now_strftime W ++ "  " ++ nl).

Definition help_reply : string :=
  "⚠️ I can:" ++ nl ++ "- `List my last 3 emails`" ++ nl
  ++ "- `Summarize my recent emails`" ++ nl
  ++ "- `Send an email to someone@example.com saying Hi`".

(** Lines 94-141: the reply to one prompt, and the backend calls made
    for it. *)
Definition reply_to (W : world) (prompt : string) : traced http_request string :=
  let p := normalize prompt in
  match classify p with
  | LIST_EMAILS =>
      data <- list_emails W 3 ;;
      lift (list_reply W data)
  | SUMMARIZE =>
      data <- summarize_emails W 5 ;;
      lift (summary_reply W data)
  | SEND_EMAIL =>
      let (recipient, body) := extract prompt in
      let subject := subject_of body in
      data <- send_email W recipient subject body ;;
      lift (send_reply W recipient subject body data)
  | UNKNOWN => ret help_reply
  end.

End Streamlit_app.

(* ------------------------------------------------------------------ *)
(** ** Main.py: organize_labels *)
(* ------------------------------------------------------------------ *)

Module Main_labels.
Import Py.

(** The collaborators of [organize_labels], all of gmail_client.py. *)
Record world : Type := {
  list_labels : result (list dict);
  create_label : pyval -> result pyval;
  (** [modify_message_labels(message_id, add_labels=...)] *)
  modify_message_labels : pyval -> list pyval -> result pyval
}.

Inductive call : Type :=
| call_list_labels
| call_create_label (name : pyval)
| call_modify_message_labels (message_id : pyval) (add_labels : list pyval).

(** [v] can be the key of a dict. *)
Definition hashable (v : pyval) : bool :=
  match v with
  | PList _ | PDict _ => false
  | _ => true
  end.

Definition unhashable (v : pyval) : exn :=
  Exn "TypeError" ("unhashable type: '" ++ type_name v ++ "'").

(** [a == b] for two keys: [True] and [False] are the integers 1 and 0. *)
Definition key_eq (a b : pyval) : bool :=
  match a, b with
  | PNone, PNone => true
  | PStr x, PStr y => x =? y
  | PBool x, PBool y => Bool.eqb x y
  | PInt x, PInt y => (x =? y)%Z
  | PBool x, PInt y | PInt y, PBool x => ((if x then 1 else 0) =? y)%Z
  | _, _ => false
  end.

(** A dict whose keys are any hashable values, in insertion order. *)
Definition keyed : Type := list (pyval * pyval).

(** [m[k] = v]: an equal key keeps its place and its first spelling. *)
Fixpoint keyed_set (k v : pyval) (m : keyed) : keyed :=
  match m with
  | [] => [(k, v)]
  | (k', v') :: m' =>
      if key_eq k' k then (k', v) :: m' else (k', v') :: keyed_set k v m'
  end.

Fixpoint keyed_lookup (k : pyval) (m : keyed) : option pyval :=
  match m with
  | [] => None
  | (k', v) :: m' => if key_eq k' k then Some v else keyed_lookup k m'
  end.

(** [k in m] *)
Definition keyed_has (k : pyval) (m : keyed) : result bool :=
  if hashable k
  then Ok (match keyed_lookup k m with Some _ => true | None => false end)
  else Raised (unhashable k).

(** [repr(k)] for a key that is not a string is [str(k)]. *)
Definition key_repr (k : pyval) : string :=
  match k with
  | PStr s => "'" ++ s ++ "'"
  | PNone => "None"
  | PBool true => "True"
  | PBool false => "False"
  | PInt n => str_of_Z n
  | _ => type_name k
  end.

(** [m[k]] *)
Definition keyed_getitem (m : keyed) (k : pyval) : result pyval :=
  if hashable k
  then match keyed_lookup k m with
       | Some v => Ok v
       | None => Raised (Exn "KeyError" (key_repr k))
       end
  else Raised (unhashable k).

(** [{lab["name"]: lab["id"] for lab in labels}], added to [label_map]. *)
Fixpoint build_label_map (labels : list dict) (label_map : keyed) : result keyed :=
  match labels with
  | [] => ret label_map
  | lab :: rest =>
      name <- py_getitem (PDict lab) "name" ;;
      id <- py_getitem (PDict lab) "id" ;;
      if hashable name then build_label_map rest (keyed_set name id label_map)
      else Raised (unhashable name)
  end.

(** [created.get("id")] *)
Definition get_id (created : pyval) : result pyval :=
  match created with
  | PDict d => Ok (dict_get "id" d)
  | _ => Raised (no_attribute created "get")
  end.

Definition organize_labels (W : world) (body : dict) : traced call Main.Response :=
  let message_id := dict_get "message_id" body in
  let label_name := dict_get "label" body in
  if negb (truthy message_id) || negb (truthy label_name) then
    ret (Main.client_error "message_id and label required")
  else
    catch
      (labels <- perform call_list_labels (list_labels W) ;;
       label_map <- lift (build_label_map labels []) ;;
       known <- lift (keyed_has label_name label_map) ;;
       label_id <-
         (if negb known then
            created <- perform (call_create_label label_name)
                               (create_label W label_name) ;;
            lift (get_id created)
          else lift (keyed_getitem label_map label_name)) ;;
       res <- perform (call_modify_message_labels message_id [label_id])
                      (modify_message_labels W message_id [label_id]) ;;
       ret (Main.respond (PDict [("ok", PBool true); ("result", res)])))
      (fun e => ret (Main.server_error e)).

End Main_labels.

(* ------------------------------------------------------------------ *)
(** ** Streamlit_app.py: the chat threads of a session *)
(* ------------------------------------------------------------------ *)

Module Session.
Import Py.
Import Streamlit_app.

(** One entry of a thread: [{"role": ..., "content": ...}]. *)
Record message : Type := { role : string; content : string }.

Definition user (text : string) : message := {| role := "user"; content := text |}.
Definition assistant (text : string) : message :=
  {| role := "assistant"; content := text |}.

Definition thread : Type := list message.

(** [st.session_state]: the threads by name, in the order in which the
    names were first stored, and the name of the thread on display. *)
Record session_state : Type := {
  chats : list (string * thread);
  current_chat : string
}.

(** [chats[name]] as an option *)
Fixpoint lookup (name : string) (c : list (string * thread)) : option thread :=
  match c with
  | [] => None
  | (k, t) :: rest => if k =? name then Some t else lookup name rest
  end.

(** [chats[name] = t]: a stored name keeps its place, a new one is added
    at the end. *)
Fixpoint store (name : string) (t : thread) (c : list (string * thread))
  : list (string * thread) :=
  match c with
  | [] => [(name, t)]
  | (k, v) :: rest =>
      if k =? name then (k, t) :: rest else (k, v) :: store name t rest
  end.

(** [names.index(name)] *)
Fixpoint index_of (name : string) (names : list string) : option nat :=
  match names with
  | [] => None
  | k :: rest =>
      if k =? name then Some 0%nat
      else match index_of name rest with
           | Some i => Some (S i)
           | None => None
           end
  end.

Definition greeting : string :=
  "Hi 👋, I’m your Gmail AI assistant." ++ nl ++ nl ++ "How can I help you today?".

(** Lines 22-28: the state of a session that has none yet. *)
Definition initial : session_state :=
  {| chats := [("Chat 1", [assistant greeting])]; current_chat := "Chat 1" |}.

Definition init (stored : option session_state) : session_state :=
  match stored with
  | Some s => s
  | None => initial
  end.

(** Lines 30-31.  The text of the KeyError is that of a name without
    quotes or escapes. *)
Definition current_messages (s : session_state) : result thread :=
  match lookup (current_chat s) (chats s) with
  | Some t => Ok t
  | None => Raised (Exn "KeyError" ("'" ++ current_chat s ++ "'"))
  end.

(** [current_messages().append(m)]: the list of the thread is changed in
    place. *)
Definition append_message (m : message) (s : session_state) : result session_state :=
  msgs <- current_messages s ;;
  ret {| chats := store (current_chat s) (msgs ++ [m])%list (chats s);
         current_chat := current_chat s |}.

(** Lines 83-86 *)
Definition display (msg : message) : string :=
  if role msg =? "user"
  then "<div style='margin:8px 0;'><b>You:</b><br>" ++ content msg ++ "</div>"
  else "<div style='margin:8px 0;'><b>Assistant:</b><br>" ++ content msg ++ "</div>".

(** What the widgets return in one run of the script: the text of the
    chat input, whether each button was pressed, and the choice of the
    radio for its options and its default index. *)
Record widgets : Type := {
  chat_input : option string;
  new_chat_button : bool;
  radio : list string -> nat -> string;
  clear_chat_button : bool
}.

(** [if prompt := st.chat_input(...)] *)
Definition submitted (w : widgets) : option string :=
  match chat_input w with
  | Some prompt => if prompt =? "" then None else Some prompt
  | None => None
  end.

(** Lines 155-159 *)
Definition new_chat (s : session_state) : session_state :=
  let new_name := "Chat " ++ str_of_Z (Z.of_nat (List.length (chats s)) + 1) in
  {| chats := store new_name
                [assistant "New chat started. Hi 👋, how can I help you?"] (chats s);
     current_chat := new_name |}.

(** Lines 162-164 *)
Definition choose (w : widgets) (s : session_state) : result session_state :=
  let names := map fst (chats s) in
  match index_of (current_chat s) names with
  | Some i => Ok {| chats := chats s; current_chat := radio w names i |}
  | None => Raised (Exn "ValueError" ("'" ++ current_chat s ++ "' is not in list"))
  end.

(** Lines 167-169 *)
Definition clear_chat (s : session_state) : session_state :=
  {| chats := store (current_chat s)
                [assistant "Chat cleared. Hi 👋, how can I help you now?"] (chats s);
     current_chat := current_chat s |}.

(** What the inbox of the sidebar shows. *)
Inductive sidebar_item : Type :=
| write (text : string)
| expander (label : string) (lines : list string).

(** Lines 179-182 *)
Definition inbox_entry (W : world) (email : pyval) : result sidebar_item :=
  subject <- py_get email "subject" PNone ;;
  from <- py_get email "from" PNone ;;
  time <- py_get email "time" PNone ;;
  body <- py_get email "body" PNone ;;
  ret (expander (py_str (repr W) subject ++ " (" ++ py_str (repr W) from ++ ")")
         ["📧 From: " ++ py_str (repr W) from;
          "🕒 " ++ format_time W time;
          "📝 " ++ py_str (repr W) body]).

(** The entries shown for [items], and the exception that ended the
    loop, if any. *)
Fixpoint inbox_entries (W : world) (items : list pyval)
  : list sidebar_item * option exn :=
  match items with
  | [] => ([], None)
  | email :: rest =>
      match inbox_entry W email with
      | Raised e => ([], Some e)
      | Ok item =>
          let (shown, failure) := inbox_entries W rest in (item :: shown, failure)
      end
  end.

(** Lines 175-182 *)
Definition show_inbox (W : world) (data : pyval) : list sidebar_item * option exn :=
  match has_error data with
  | Raised e => ([], Some e)
  | Ok true =>
      match py_getitem data "error" with
      | Ok e => ([write ("⚠️ " ++ py_str (repr W) e)], None)
      | Raised e => ([], Some e)
      end
  | Ok false =>
      match py_iter data with
      | Ok items => inbox_entries W items
      | Raised e => ([], Some e)
      end
  end.

(** How a run of the script ends: [st.rerun()], the last line, or an
    exception. *)
Inductive ending : Type :=
| rerun
| completed
| raised (e : exn).

(** One run of the script: the session state it leaves, the thread it
    displayed, the requests it sent and the inbox it showed.  The fixed
    texts of the page (title, headers, spinners) and the pause before the
    reply is stored are not part of it. *)
Record run : Type := {
  state : session_state;
  displayed : list string;
  requests : list http_request;
  inbox : list sidebar_item;
  ending_of : ending
}.

Definition script (W : world) (w : widgets) (stored : option session_state) : run :=
  let s := init stored in
  match current_messages s with
  | Raised e =>
      {| state := s; displayed := []; requests := []; inbox := [];
         ending_of := raised e |}
  | Ok msgs =>
      let shown := map display msgs in
      match submitted w with
      | Some prompt =>
          match append_message (user prompt) s with
          | Raised e =>
              {| state := s; displayed := shown; requests := []; inbox := [];
                 ending_of := raised e |}
          | Ok s1 =>
              match reply_to W prompt with
              | (Raised e, sent) =>
                  {| state := s1; displayed := shown; requests := sent; inbox := [];
                     ending_of := raised e |}
              | (Ok reply, sent) =>
                  match append_message (assistant reply) s1 with
                  | Raised e =>
                      {| state := s1; displayed := shown; requests := sent;
                         inbox := []; ending_of := raised e |}
                  | Ok s2 =>
                      {| state := s2; displayed := shown; requests := sent;
                         inbox := []; ending_of := rerun |}
                  end
              end
          end
      | None =>
          if new_chat_button w then
            {| state := new_chat s; displayed := shown; requests := []; inbox := [];
               ending_of := rerun |}
          else
            match choose w s with
            | Raised e =>
                {| state := s; displayed := shown; requests := []; inbox := [];
                   ending_of := raised e |}
            | Ok s1 =>
                if clear_chat_button w then
                  {| state := clear_chat s1; displayed := shown; requests := [];
                     inbox := []; ending_of := rerun |}
                else
                  match list_emails W 5 with
                  | (Raised e, sent) =>
                      {| state := s1; displayed := shown; requests := sent;
                         inbox := []; ending_of := raised e |}
                  | (Ok data, sent) =>
                      let (items, failure) := show_inbox W data in
                      {| state := s1; displayed := shown; requests := sent;
                         inbox := items;
                         ending_of := match failure with
                                      | Some e => raised e
                                      | None => completed
                                      end |}
                  end
            end
      end
  end.

End Session.

(* ------------------------------------------------------------------ *)
(** ** The vocabulary of the statements *)
(* ------------------------------------------------------------------ *)

Import Py.

(** [needle] occurs in [hay]. *)
Definition substring (needle hay : string) : Prop :=
  exists pre post, hay = pre ++ needle ++ post.

(** [s] does not start with white space. *)
Definition starts_solid (s : string) : Prop :=
  exists c s', s = String c s' /\ is_space c = false.

(** [s] does not end with white space. *)
Definition ends_solid (s : string) : Prop :=
  exists s' c, s = s' ++ String c "" /\ is_space c = false.

(** [s] without its first [n] characters. *)
Fixpoint drop (n : nat) (s : string) : string :=
  match n, s with
  | S k, String _ s' => drop k s'
  | _, _ => s
  end.

(** [sep] occurs in [s] after [pre], and nowhere further left. *)
Definition leftmost (sep s pre post : string) : Prop :=
  s = pre ++ sep ++ post
  /\ forall pre2 post2, s = pre2 ++ sep ++ post2 ->
       String.length pre <= String.length pre2.

(** No occurrence of [sep] in [s] starts at one of the first [n]
    positions. *)
Definition no_match_before (sep s : string) (n : nat) : bool :=
  forallb (fun k => negb (startswith sep (drop k s))) (seq 0 n).

(** [x] is [s] up to the first occurrence of [sep]: all of [s] when
    there is none. *)
Definition first_piece (sep s x : string) : Prop :=
  (~ substring sep s /\ x = s) \/ (exists more, leftmost sep s x more).

(** Everything after the first occurrence of [sep] in [s], when there
    is one. *)
Fixpoint everything_after (sep s : string) : option string :=
  if startswith sep s then Some (drop (String.length sep) s)
  else match s with
       | "" => None
       | String _ s' => everything_after sep s'
       end.

(** The extractor as the specification words it: everything after the first
    "send an email to" is split on "saying". *)
Definition extract_everything_after (prompt : string) : string * string :=
  match everything_after "send an email to" prompt with
  | None => ("unknown@example.com", "Hello!")
  | Some rest =>
      match split "saying" (strip rest) with
      | first :: second :: _ => (strip first, strip second)
      | first :: [] => (strip first, "Hello!")
      | [] => ("unknown@example.com", "Hello!")
      end
  end.

(** The request [send_email] posts. *)
Definition send_email_request (to subject body : string) : Streamlit_app.http_request :=
  {| Streamlit_app.method := Streamlit_app.POST;
     Streamlit_app.url := Streamlit_app.SEND_URL;
     Streamlit_app.params := [];
     Streamlit_app.json := Some (PDict [("to", PStr to); ("subject", PStr subject);
                                        ("body", PStr body)]);
     Streamlit_app.timeout := 15 |}.

(** [k] is the key of one of [items]. *)
Definition has_key (k : string) (items : list (string * pyval)) : bool :=
  existsb (fun kv => fst kv =? k) items.

(** A backend whose collaborators give fixed answers. *)
Definition fixed_backend (sent : result pyval) (msgs : result (list dict))
    (key : option pyval) : Main.world :=
  {| Main.send_message := fun _ _ _ => sent;
     Main.list_messages := fun _ _ => msgs;
     Main.modify_message_labels := fun _ _ _ => Ok (PDict [("id", PStr "m-1")]);
     Main.ChatCompletion_create := fun _ _ _ _ => Ok (PDict []);
     Main.OPENAI_API_KEY := key;
     Main.OPENAI_MODEL := None;
     Main.repr := fun _ => "..." |}.

(** A valid body for [POST /gmail/send/]. *)
Definition hello_request : pyval :=
  PDict [("to", PStr "a@b.com"); ("subject", PStr "Hi"); ("body", PStr "Hello")].

(** The first truthy value of the alternatives; the last one when none
    is truthy. *)
Fixpoint first_truthy (alternatives : list pyval) : pyval :=
  match alternatives with
  | [] => PNone
  | [v] => v
  | v :: rest => if truthy v then v else first_truthy rest
  end.

(** The first value that is not null. *)
Fixpoint first_non_null (alternatives : list pyval) : pyval :=
  match alternatives with
  | [] => PNone
  | PNone :: rest => first_non_null rest
  | v :: _ => v
  end.

(** The text of the body of a raw message: the body is a string, or it
    is missing or falsy and stands for the empty text. *)
Definition body_text (m : dict) : option string :=
  match dict_get "body" m with
  | PStr s => Some s
  | v => if truthy v then None else Some ""
  end.

(** The simplified shape of a raw message whose body is the text [s]. *)
Definition simplified_shape (m : dict) (s : string) : pyval :=
  PDict [("id", dict_get "id" m);
         ("threadId", dict_get "threadId" m);
         ("from", first_truthy [dict_get "from" m; dict_get "sender" m;
                                dict_get "emailFrom" m]);
         ("to", dict_get "to" m);
         ("subject", first_truthy [dict_get "subject" m; dict_get "title" m;
                                   dict_get "header_subject" m]);
         ("snippet", dict_get "snippet" m);
         ("time", first_truthy [dict_get "time" m; dict_get "date" m;
                                dict_get "internalDate" m]);
         ("body", PStr (slice_to 2000 s))].

(** The call goes to the completion API. *)
Definition is_completion_call (c : Main.call) : bool :=
  match c with
  | Main.call_ChatCompletion_create _ _ _ _ => true
  | _ => false
  end.

(** The action is none of the three the handler knows. *)
Definition unknown_action (action : pyval) : Prop :=
  action <> PStr "mark_spam" /\ action <> PStr "unspam"
  /\ action <> PStr "unmark_spam".

(** The request [list_emails] sends. *)
Definition list_emails_request (limit : Z) : Streamlit_app.http_request :=
  {| Streamlit_app.method := Streamlit_app.GET;
     Streamlit_app.url := Streamlit_app.LIST_URL;
     Streamlit_app.params := [("limit", PInt limit)];
     Streamlit_app.json := None;
     Streamlit_app.timeout := 10 |}.

(** The request [summarize_emails] sends. *)
Definition summarize_emails_request (limit : Z) : Streamlit_app.http_request :=
  {| Streamlit_app.method := Streamlit_app.GET;
     Streamlit_app.url := Streamlit_app.SUMMARY_URL;
     Streamlit_app.params := [("limit", PInt limit)];
     Streamlit_app.json := None;
     Streamlit_app.timeout := 10 |}.

(** The exception that ends the exchange for [req], if any: raised by
    the HTTP library (no connection, the timeout ran out), by
    [raise_for_status], or by [resp.json()]. *)
Definition failure_of (W : Streamlit_app.world) (req : Streamlit_app.http_request)
  : option exn :=
  match Streamlit_app.http W req with
  | Raised e => Some e
  | Ok resp =>
      match Streamlit_app.raise_for_status resp with
      | Raised e => Some e
      | Ok _ =>
          match Streamlit_app.body_json resp with
          | Raised e => Some e
          | Ok _ => None
          end
      end
  end.

(** [{"error": str(e)}] *)
Definition error_result (e : exn) : pyval := PDict [("error", PStr (exn_str e))].

(** A chat client whose every request gets the same answer. *)
Definition fixed_network (answer : result Streamlit_app.http_response)
  : Streamlit_app.world :=
  {| Streamlit_app.http := fun _ => answer;
     Streamlit_app.parsedate_strftime :=
       fun _ => Raised (Exn "TypeError" "not a date");
     Streamlit_app.fromtimestamp_strftime := fun _ => Ok "2025-09-25 12:34";
     Streamlit_app.now_strftime := "2025-09-25 12:35";
     Streamlit_app.repr := fun _ => "..." |}.

(** The four lines of the entry numbered [i] for the item [d]. *)
Definition entry_text (W : Streamlit_app.world) (i : Z) (d : dict) : string :=
  "**" ++ str_of_Z i ++ ". "
  ++ (py_str (Streamlit_app.repr W) (dict_get_default "subject" (PStr "(No subject)") d)
      ++ "**" ++ Streamlit_app.nl
      ++ "- From: " ++ py_str (Streamlit_app.repr W) (dict_get "from" d)
      ++ Streamlit_app.nl
      ++ "- Time: " ++ Streamlit_app.format_time W (dict_get "time" d)
      ++ Streamlit_app.nl
      ++ "- Body: " ++ py_str (Streamlit_app.repr W) (dict_get "body" d)
      ++ Streamlit_app.nl ++ Streamlit_app.nl).

(** The entries of the items [ds], numbered from [i]. *)
Fixpoint entries (W : Streamlit_app.world) (i : Z) (ds : list dict) : list string :=
  match ds with
  | [] => []
  | d :: rest => entry_text W i d :: entries W (i + 1) rest
  end.

(** The value of the decimal digits [d] read after the value [acc]. *)
Fixpoint horner (d : Decimal.uint) (acc : Z) : Z :=
  match d with
  | Decimal.Nil => acc
  | Decimal.D0 d => horner d (10 * acc + 0)
  | Decimal.D1 d => horner d (10 * acc + 1)
  | Decimal.D2 d => horner d (10 * acc + 2)
  | Decimal.D3 d => horner d (10 * acc + 3)
  | Decimal.D4 d => horner d (10 * acc + 4)
  | Decimal.D5 d => horner d (10 * acc + 5)
  | Decimal.D6 d => horner d (10 * acc + 6)
  | Decimal.D7 d => horner d (10 * acc + 7)
  | Decimal.D8 d => horner d (10 * acc + 8)
  | Decimal.D9 d => horner d (10 * acc + 9)
  end%Z.

(** No character of [s] is white space. *)
Fixpoint no_space (s : string) : bool :=
  match s with
  | "" => true
  | String c s' => negb (is_space c) && no_space s'
  end.

(** The block of the summary prompt for the snippet [s], numbered [i]. *)
Definition snippet_block (W : Main.world) (i : Z) (s : pyval) : string :=
  "Email " ++ str_of_Z i ++ ":" ++ Main.nl ++ py_str (Main.repr W) s
  ++ Main.nl ++ Main.nl.

(** The blocks of the snippets, numbered from [i]. *)
Fixpoint snippet_blocks (W : Main.world) (i : Z) (snippets : list pyval) : list string :=
  match snippets with
  | [] => []
  | s :: rest => snippet_block W i s :: snippet_blocks W (i + 1) rest
  end.

(** A backend with an API key whose completion API gives a fixed answer. *)
Definition keyed_backend (msgs : result (list dict)) (completion : result pyval)
  : Main.world :=
  {| Main.send_message := fun _ _ _ => Ok PNone;
     Main.list_messages := fun _ _ => msgs;
     Main.modify_message_labels := fun _ _ _ => Ok PNone;
     Main.ChatCompletion_create := fun _ _ _ _ => completion;
     Main.OPENAI_API_KEY := Some (PStr "sk-test");
     Main.OPENAI_MODEL := None;
     Main.repr := fun _ => "..." |}.

(** [s] has no white space at either end. *)
Definition trimmed (s : string) : Prop := strip s = s.

(** The exception of [reply += None]. *)
Definition concat_none : exn :=
  Exn "TypeError"
      ("can only concatenate str (not " ++ String (ascii_of_nat 34) "NoneType"
       ++ String (ascii_of_nat 34) ") to str").

(** The label has a name that can be a key, and an id. *)
Definition label_ok (lab : dict) : bool :=
  dict_has "name" lab && dict_has "id" lab
  && Main_labels.hashable (dict_get "name" lab).

(** The id of the last label called [name]. *)
Fixpoint last_id (name : string) (labels : list dict) : option pyval :=
  match labels with
  | [] => None
  | lab :: rest =>
      match last_id name rest with
      | Some id => Some id
      | None =>
          if eq_str (dict_get "name" lab) name then Some (dict_get "id" lab)
          else None
      end
  end.

(** A mailbox with the given labels, whose other operations give fixed
    answers. *)
Definition fixed_mailbox (labels : result (list dict)) (created : result pyval)
  : Main_labels.world :=
  {| Main_labels.list_labels := labels;
     Main_labels.create_label := fun _ => created;
     Main_labels.modify_message_labels :=
       fun _ _ => Ok (PDict [("id", PStr "18c2")]) |}.

(** Two of the labels of a mailbox. *)
Definition two_labels : list dict :=
  [[("id", PStr "INBOX"); ("name", PStr "INBOX")];
   [("id", PStr "Label_7"); ("name", PStr "Invoices")]].

(** The names "Chat first", "Chat first+1", ... of [n] threads. *)
Fixpoint numbered (first : Z) (n : nat) : list string :=
  match n with
  | O => []
  | S n' => ("Chat " ++ str_of_Z first) :: numbered (first + 1) n'
  end.

Definition chat_names (s : Session.session_state) : list string :=
  map fst (Session.chats s).

(** The thread opens with a message of the assistant. *)
Definition opens_with_assistant (t : Session.thread) : bool :=
  match t with
  | m :: _ => Session.role m =? "assistant"
  | [] => false
  end.

(** The threads are "Chat 1" to "Chat n" in this order, the thread on
    display is one of them, and each opens with the assistant. *)
Definition well_formed (s : Session.session_state) : Prop :=
  chat_names s = numbered 1 (List.length (Session.chats s))
  /\ In (Session.current_chat s) (chat_names s)
  /\ Forall (fun kv => opens_with_assistant (snd kv) = true) (Session.chats s).

(** The radio returns one of its options. *)
Definition honest (w : Session.widgets) : Prop :=
  forall names i, (i < List.length names)%nat -> In (Session.radio w names i) names.

(** The states a session can be in after some runs of the script. *)
Inductive reachable : Session.session_state -> Prop :=
| first_run (W : Streamlit_app.world) (w : Session.widgets) :
    honest w -> reachable (Session.state (Session.script W w None))
| next_run (W : Streamlit_app.world) (w : Session.widgets) (s : Session.session_state) :
    reachable s -> honest w ->
    reachable (Session.state (Session.script W w (Some s))).

(** The widgets of a run in which the user pressed nothing: the radio
    stays on its default. *)
Definition untouched : Session.widgets :=
  {| Session.chat_input := None;
     Session.new_chat_button := false;
     Session.radio := fun names i => nth i names "";
     Session.clear_chat_button := false |}.

(** The widgets of a run in which the user sent [prompt]. *)
Definition typed (prompt : string) : Session.widgets :=
  {| Session.chat_input := Some prompt;
     Session.new_chat_button := false;
     Session.radio := fun names i => nth i names "";
     Session.clear_chat_button := false |}.

(** The widgets of a run in which the user pressed New Chat or Clear
    Chat. *)
Definition pressed (new_chat clear_chat : bool) : Session.widgets :=
  {| Session.chat_input := None;
     Session.new_chat_button := new_chat;
     Session.radio := fun names i => nth i names "";
     Session.clear_chat_button := clear_chat |}.


(** The fields of a dict value. *)
Definition fields_of (v : pyval) : dict :=
  match v with
  | PDict d => d
  | _ => []
  end.

(** The subject the list handler sends for the raw message [m]. *)
Definition sent_subject (m : dict) : pyval :=
  first_truthy [dict_get "subject" m; dict_get "title" m;
                dict_get "header_subject" m].

(** The number of decimal digits of [n]. *)
Definition digits_of (n : Z) : Z :=
  Z.of_nat (String.length (str_of_Z (Z.abs n))).



(** The lines of [text], after the part [line] of its first line. *)
Fixpoint lines_from (line text : string) : list string :=
  match text with
  | "" => [line]
  | String c rest =>
      if Ascii.eqb c (ascii_of_nat 10) then line :: lines_from "" rest
      else lines_from (line ++ String c "") rest
  end.

Definition lines (text : string) : list string := lines_from "" text.






(* ------------------------------------------------------------------ *)
(** ** Facts about the string primitives *)
(* ------------------------------------------------------------------ *)

Lemma append_nil_r (s : string) : s ++ "" = s.
Proof. induction s; simpl; congruence. Qed.

Lemma append_assoc (a b c : string) : (a ++ b) ++ c = a ++ b ++ c.
Proof. induction a; simpl; congruence. Qed.

Lemma startswith_spec (sep s : string) :
  startswith sep s = true <-> exists post, s = sep ++ post.
Proof.
  revert s; induction sep as [|a sep IH]; intros s; simpl.
  - split; [intros _; now exists s | reflexivity].
  - destruct s as [|b s].
    + split; [discriminate | intros [post H]; discriminate].
    + rewrite andb_true_iff, Ascii.eqb_eq, IH. split.
      * intros [-> [post ->]]. now exists post.
      * intros [post H]. injection H as -> ->. split; [reflexivity | now exists post].
Qed.

Lemma contains_spec (needle hay : string) :
  contains needle hay = true <-> substring needle hay.
Proof.
  induction hay as [|c hay IH].
  - simpl. rewrite orb_false_r, startswith_spec. split.
    + intros [post H]. now exists "", post.
    + intros [pre [post H]]. destruct pre; [now exists post | discriminate].
  - cbn [contains]. rewrite orb_true_iff, startswith_spec, IH. split.
    + intros [[post H] | [pre [post H]]].
      * now exists "", post.
      * exists (String c pre), post. simpl. now rewrite H.
    + intros [pre [post H]]. destruct pre as [|d pre].
      * left. now exists post.
      * right. injection H as _ H. now exists pre, post.
Qed.

Lemma lower_append (a b : string) : lower (a ++ b) = lower a ++ lower b.
Proof. induction a; simpl; congruence. Qed.

(** A needle that [lower] leaves alone survives [lower] of the haystack. *)
Lemma substring_lower (needle hay : string) :
  lower needle = needle -> substring needle hay -> substring needle (lower hay).
Proof.
  intros Hfix [pre [post ->]].
  exists (lower pre), (lower post).
  now rewrite !lower_append, Hfix.
Qed.

Lemma lstrip_keeps (pre rest : string) (c : ascii) :
  is_space c = false ->
  exists pre', lstrip (pre ++ String c rest) = pre' ++ String c rest.
Proof.
  intros Hc. induction pre as [|a pre IH]; simpl.
  - rewrite Hc. now exists "".
  - destruct (is_space a); [exact IH |].
    now exists (String a pre).
Qed.

Lemma rstrip_cons_solid (c : ascii) (s : string) :
  is_space c = false -> rstrip (String c s) = String c (rstrip s).
Proof. intros Hc. simpl. now rewrite Hc. Qed.

Lemma rstrip_append (pre x : string) :
  rstrip x <> "" -> rstrip (pre ++ x) = pre ++ rstrip x.
Proof.
  intros Hx. induction pre as [|a pre IH]; simpl; [reflexivity |].
  rewrite IH.
  destruct (pre ++ rstrip x) eqn:E.
  - destruct pre; simpl in E; [contradiction | discriminate].
  - now rewrite andb_false_r.
Qed.

Lemma rstrip_keeps (pre post : string) (c : ascii) :
  is_space c = false ->
  exists post', rstrip (pre ++ String c post) = pre ++ String c post'.
Proof.
  intros Hc. exists (rstrip post).
  rewrite rstrip_append; rewrite rstrip_cons_solid by exact Hc;
    [reflexivity | discriminate].
Qed.

(** A needle with solid ends survives [strip] of the haystack. *)
Lemma substring_strip (needle hay : string) :
  starts_solid needle -> ends_solid needle ->
  substring needle hay -> substring needle (strip hay).
Proof.
  intros [c1 [n1 [E1 H1]]] [n0 [c2 [E2 H2]]] [pre [post ->]].
  unfold strip.
  destruct (lstrip_keeps pre (n1 ++ post) c1 H1) as [pre' Hl].
  replace (pre ++ needle ++ post) with (pre ++ String c1 (n1 ++ post))
    by (rewrite E1; reflexivity).
  rewrite Hl.
  replace (pre' ++ String c1 (n1 ++ post)) with ((pre' ++ n0) ++ String c2 post).
  - destruct (rstrip_keeps (pre' ++ n0) post c2 H2) as [post' Hr].
    rewrite Hr. exists pre', post'.
    rewrite E2, !append_assoc. reflexivity.
  - change (String c1 (n1 ++ post)) with (String c1 n1 ++ post).
    rewrite <- E1, E2, !append_assoc. reflexivity.
Qed.

Lemma substring_normalize (needle prompt : string) :
  lower needle = needle -> starts_solid needle -> ends_solid needle ->
  substring needle prompt -> substring needle (Streamlit_app.normalize prompt).
Proof.
  intros Hl Hs He H. unfold Streamlit_app.normalize.
  apply substring_strip; [assumption | assumption |].
  now apply substring_lower.
Qed.

Lemma rstrip_idempotent (s : string) : rstrip (rstrip s) = rstrip s.
Proof.
  induction s as [|c s IH]; [reflexivity |]. cbn [rstrip].
  destruct (is_space c && (rstrip s =? "")) eqn:E; [reflexivity |].
  cbn [rstrip]. now rewrite IH, E.
Qed.

Lemma lstrip_solid (c : ascii) (s : string) :
  is_space c = false -> lstrip (String c s) = String c s.
Proof. intros H. simpl. now rewrite H. Qed.

(** What [lstrip] leaves is empty or starts with a solid character. *)
Lemma lstrip_shape (s : string) :
  lstrip s = "" \/ exists c s', lstrip s = String c s' /\ is_space c = false.
Proof.
  induction s as [|c s IH]; [now left |]. simpl.
  destruct (is_space c) eqn:E; [exact IH |]. right. now exists c, s.
Qed.

Lemma strip_idempotent (s : string) : strip (strip s) = strip s.
Proof.
  unfold strip. destruct (lstrip_shape s) as [-> | [c [s' [-> Hc]]]]; [reflexivity |].
  rewrite (rstrip_cons_solid c s' Hc), (lstrip_solid c _ Hc).
  rewrite <- (rstrip_cons_solid c s' Hc). apply rstrip_idempotent.
Qed.

Lemma contains_false (needle hay : string) :
  contains needle hay = false <-> ~ substring needle hay.
Proof.
  rewrite <- contains_spec. destruct (contains needle hay); split; intros H;
    try discriminate; try reflexivity; try (intros H'; discriminate).
  exfalso. now apply H.
Qed.

(** What the primitives give on small inputs. *)

Example strip_example :
  strip (String (ascii_of_nat 9) "  Send  it ") = "Send  it".
Proof. reflexivity. Qed.

Example lower_example : lower "List my E-Mails" = "list my e-mails".
Proof. reflexivity. Qed.

Example split_example : split "aa" "aaaaa" = [""; ""; "a"].
Proof. reflexivity. Qed.

Example split_saying_example :
  split "saying" "bob saying I was saying hi" = ["bob "; " I was "; " hi"].
Proof. reflexivity. Qed.

Example int_of_str_examples :
  int_of_str " 42 " = Ok 42%Z
  /\ int_of_str "-7" = Ok (-7)%Z
  /\ int_of_str "1_000" = Ok 1000%Z
  /\ int_of_str (String (ascii_of_nat 160) "007") = Ok 7%Z
  /\ (forall s, In s [""; "ten"; "1.5"; "0x1F"; "1__0"; "_1"; "5_"; "+"; "- 5";
                      String (ascii_of_nat 28) "5"; "5" ++ String (ascii_of_nat 31) ""] ->
      exists e, int_of_str s = Raised e).
Proof.
  repeat split. intros s H. cbn in H.
  repeat (destruct H as [<- | H]; [eexists; reflexivity |]). contradiction.
Qed.

(* ------------------------------------------------------------------ *)
(** ** The intent classifier *)
(* ------------------------------------------------------------------ *)

Section Classifier.
Import Streamlit_app.

Lemma classify_list (p : string) :
  substring "list" p -> substring "email" p -> classify p = LIST_EMAILS.
Proof.
  intros Hl He. unfold classify.
  apply contains_spec in Hl, He. now rewrite Hl, He.
Qed.

Lemma classify_not_list (p : string) :
  ~ (substring "list" p /\ substring "email" p) ->
  contains "list" p && contains "email" p = false.
Proof.
  intros H. destruct (contains "list" p) eqn:El; [| reflexivity].
  destruct (contains "email" p) eqn:Ee; [| reflexivity].
  exfalso. apply H. split; now apply contains_spec.
Qed.

(** C1.  On the lower-cased, trimmed text [p] of any utterance the
    classifier follows a fixed priority: LIST_EMAILS when both "list" and
    "email" occur in [p]; otherwise SUMMARIZE when "summarize" occurs;
    otherwise SEND_EMAIL when "send an email to" occurs; otherwise
    UNKNOWN.  In particular an utterance in which "list", "email" and
    "summarize" all occur is classified LIST_EMAILS, whether the three
    are read in [p] or in the utterance as typed. *)
Theorem classify_priority (prompt : string) :
  let p := normalize prompt in
  let listing := substring "list" p /\ substring "email" p in
  (listing -> classify p = LIST_EMAILS)
  /\ (~ listing -> substring "summarize" p -> classify p = SUMMARIZE)
  /\ (~ listing -> ~ substring "summarize" p ->
      substring "send an email to" p -> classify p = SEND_EMAIL)
  /\ (~ listing -> ~ substring "summarize" p ->
      ~ substring "send an email to" p -> classify p = UNKNOWN)
  /\ (listing -> substring "summarize" p -> classify p = LIST_EMAILS)
  /\ (substring "list" prompt -> substring "email" prompt ->
      substring "summarize" prompt -> classify p = LIST_EMAILS).
Proof.
  intros p listing. subst listing.
  repeat split.
  - intros [Hl He]. now apply classify_list.
  - intros Hn Hs. unfold classify.
    rewrite (classify_not_list p Hn).
    apply contains_spec in Hs. now rewrite Hs.
  - intros Hn Hs Hm. unfold classify.
    rewrite (classify_not_list p Hn).
    apply contains_false in Hs. apply contains_spec in Hm. now rewrite Hs, Hm.
  - intros Hn Hs Hm. unfold classify.
    rewrite (classify_not_list p Hn).
    apply contains_false in Hs, Hm. now rewrite Hs, Hm.
  - intros [Hl He] _. now apply classify_list.
  - intros Hl He _. subst p. apply classify_list.
    + apply substring_normalize; try assumption; try reflexivity.
      * exists "l"%char, "ist". now split.
      * exists "lis", "t"%char. now split.
    + apply substring_normalize; try assumption; try reflexivity.
      * exists "e"%char, "mail". now split.
      * exists "emai", "l"%char. now split.
Qed.

Lemma classify_priority_witness :
  classify (normalize "  Please LIST my emails and summarize them ") = LIST_EMAILS
  /\ classify (normalize "Summarize my inbox") = SUMMARIZE
  /\ classify (normalize "send an email to a@b.com saying hi") = SEND_EMAIL
  /\ classify (normalize "What is the weather?") = UNKNOWN.
Proof.
  assert (yes : forall needle hay, contains needle hay = true -> substring needle hay)
    by (intros needle hay; apply contains_spec).
  assert (no : forall needle hay, contains needle hay = false -> ~ substring needle hay)
    by (intros needle hay; apply contains_false).
  split; [| split; [| split]].
  - destruct (classify_priority "  Please LIST my emails and summarize them ")
      as [H _].
    apply H. split; apply yes; reflexivity.
  - destruct (classify_priority "Summarize my inbox") as [_ [H _]].
    apply H.
    + intros [Hl _]. revert Hl. apply no. reflexivity.
    + apply yes. reflexivity.
  - destruct (classify_priority "send an email to a@b.com saying hi")
      as [_ [_ [H _]]].
    apply H.
    + intros [Hl _]. revert Hl. apply no. reflexivity.
    + apply no. reflexivity.
    + apply yes. reflexivity.
  - destruct (classify_priority "What is the weather?") as [_ [_ [_ [H _]]]].
    apply H.
    + intros [Hl _]. revert Hl. apply no. reflexivity.
    + apply no. reflexivity.
    + apply no. reflexivity.
Defined.

End Classifier.

(* ------------------------------------------------------------------ *)
(** ** [split] *)
(* ------------------------------------------------------------------ *)

Lemma split_from_skip (sep x r : string) :
  split_from sep (x ++ r) (String.length x) = split_from sep r 0.
Proof. induction x as [|c x IH]; simpl; [reflexivity | exact IH]. Qed.

Lemma split_match (sep post : string) :
  sep <> "" -> split sep (sep ++ post) = "" :: split sep post.
Proof.
  intros Hsep. destruct sep as [|c sep]; [contradiction |].
  unfold split. cbn [append split_from].
  assert (H : startswith (String c sep) (String c (sep ++ post)) = true)
    by (apply startswith_spec; now exists post).
  rewrite H.
  replace (String.length (String c sep) - 1) with (String.length sep)
    by (simpl; lia).
  now rewrite split_from_skip.
Qed.

Lemma split_not_nil (sep s : string) : split sep s <> [].
Proof.
  unfold split. generalize 0. induction s as [|c s IH]; intros skip; simpl.
  - discriminate.
  - destruct skip; [| apply IH].
    destruct (startswith sep (String c s)); [discriminate |].
    destruct (split_from sep s 0); discriminate.
Qed.

Lemma split_step (sep s : string) (c : ascii) :
  startswith sep (String c s) = false ->
  exists p ps, split sep s = p :: ps /\ split sep (String c s) = String c p :: ps.
Proof.
  intros H. unfold split. cbn [split_from]. rewrite H.
  destruct (split_from sep s 0) as [|p ps] eqn:E.
  - exfalso. now apply (split_not_nil sep s).
  - now exists p, ps.
Qed.

Lemma leftmost_tail (sep s pre post : string) (c : ascii) :
  leftmost sep (String c s) (String c pre) post -> leftmost sep s pre post.
Proof.
  intros [E H]. split.
  - simpl in E. now injection E.
  - intros pre2 post2 E2.
    specialize (H (String c pre2) post2). simpl in H.
    rewrite <- E2 in H. specialize (H eq_refl). lia.
Qed.

Lemma leftmost_no_start (sep s pre post : string) (c : ascii) :
  leftmost sep s (String c pre) post -> startswith sep s = false.
Proof.
  intros [E H]. destruct (startswith sep s) eqn:S; [| reflexivity].
  apply startswith_spec in S. destruct S as [post2 E2].
  specialize (H "" post2 E2). simpl in H. lia.
Qed.

(** The first piece of [split] ends at the leftmost separator. *)
Lemma split_leftmost (sep s pre post : string) :
  sep <> "" -> leftmost sep s pre post -> split sep s = pre :: split sep post.
Proof.
  intros Hsep. revert s. induction pre as [|c pre IH]; intros s L.
  - destruct L as [-> _]. cbn [append]. now apply split_match.
  - pose proof (leftmost_no_start _ _ _ _ _ L) as Hno.
    destruct L as [E H]. subst s. cbn [append] in *.
    destruct (split_step _ _ _ Hno) as [p [ps [Es Ec]]].
    rewrite Ec.
    rewrite (IH (pre ++ sep ++ post)) in Es.
    + injection Es as <- <-. reflexivity.
    + apply (leftmost_tail sep _ pre post c). split; [reflexivity | exact H].
Qed.

(** Without a separator the text is the only piece. *)
Lemma split_absent (sep s : string) :
  ~ substring sep s -> split sep s = [s].
Proof.
  induction s as [|c s IH]; intros H; [reflexivity |].
  assert (Hno : startswith sep (String c s) = false).
  { destruct (startswith sep (String c s)) eqn:S; [| reflexivity].
    exfalso. apply H. apply startswith_spec in S. destruct S as [post E].
    now exists "", post. }
  destruct (split_step _ _ _ Hno) as [p [ps [Es Ec]]].
  rewrite Ec. rewrite IH in Es.
  - now injection Es as <- <-.
  - intros [pre [post E]]. apply H. exists (String c pre), post.
    simpl. now rewrite E.
Qed.

Lemma leftmost_exists (sep s : string) :
  substring sep s -> exists pre post, leftmost sep s pre post.
Proof.
  induction s as [|c s IH]; intros Hs.
  - destruct Hs as [pre [post E]]. exists pre, post. split; [exact E |].
    destruct pre; [simpl; lia | discriminate].
  - destruct (startswith sep (String c s)) eqn:S.
    + apply startswith_spec in S. destruct S as [post E].
      exists "", post. split; [exact E | simpl; lia].
    + destruct Hs as [pre [post E]]. destruct pre as [|d pre].
      * assert (startswith sep (String c s) = true)
          by (apply startswith_spec; now exists post).
        congruence.
      * injection E as -> E.
        destruct IH as [pre1 [post1 [E1 H1]]]; [now exists pre, post |].
        exists (String d pre1), post1. split; [simpl; now rewrite <- E1 |].
        intros pre2 post2 E2. destruct pre2 as [|e pre2].
        -- assert (startswith sep (String d s) = true)
             by (apply startswith_spec; now exists post2).
           congruence.
        -- injection E2 as _ E2. specialize (H1 _ _ E2). simpl. lia.
Qed.

Lemma drop_all (x r : string) : drop (String.length x) (x ++ r) = r.
Proof. induction x as [|c x IH]; [now destruct r | exact IH]. Qed.

(** A computable test for [leftmost]. *)
Lemma leftmost_check (sep s pre post : string) :
  s = pre ++ sep ++ post ->
  no_match_before sep s (String.length pre) = true ->
  leftmost sep s pre post.
Proof.
  intros E H. split; [exact E |].
  intros pre2 post2 E2.
  destruct (Nat.le_gt_cases (String.length pre) (String.length pre2)) as [Hle | Hlt];
    [exact Hle | exfalso].
  unfold no_match_before in H. rewrite forallb_forall in H.
  assert (Hin : In (String.length pre2) (seq 0 (String.length pre)))
    by (apply in_seq; lia).
  specialize (H _ Hin). rewrite E2, drop_all in H.
  assert (Hs : startswith sep (sep ++ post2) = true)
    by (apply startswith_spec; now exists post2).
  rewrite Hs in H. discriminate H.
Qed.

Lemma split_first_piece (sep s x : string) :
  sep <> "" -> first_piece sep s x -> exists rest, split sep s = x :: rest.
Proof.
  intros Hsep [[Hno ->] | [more L]].
  - exists []. now apply split_absent.
  - exists (split sep more). now apply split_leftmost.
Qed.

Lemma first_piece_exists (sep s : string) : exists x, first_piece sep s x.
Proof.
  destruct (contains sep s) eqn:C.
  - apply contains_spec in C. destruct (leftmost_exists _ _ C) as [pre [post L]].
    exists pre. right. now exists post.
  - apply contains_false in C. exists s. now left.
Qed.

Lemma slice_to_spec (n : nat) (s : string) :
  exists rest, s = slice_to n s ++ rest
               /\ String.length (slice_to n s) = Nat.min n (String.length s).
Proof.
  revert s. induction n as [|n IH]; intros s.
  - exists s. destruct s; split; reflexivity.
  - destruct s as [|c s].
    + exists "". split; reflexivity.
    + destruct (IH s) as [rest [E L]]. exists rest. simpl. split.
      * now rewrite <- E.
      * now rewrite L.
Qed.

(* ------------------------------------------------------------------ *)
(** ** The API helpers of the chat client *)
(* ------------------------------------------------------------------ *)

(** A pure step after a call adds nothing to the trace. *)
Lemma trace_then_lift {E A B : Type} (m : traced E A) (f : A -> result B) :
  snd (x <- m ;; lift (f x)) = snd m.
Proof.
  destruct m as [[a | e] t]; cbn; [| reflexivity].
  now rewrite app_nil_r.
Qed.

Section ApiHelpers.
Import Streamlit_app.

(** The four ways an exchange with the backend can go: the HTTP library
    raises, the status is an error, the body is unreadable, or all is
    well. *)
Ltac exchange W :=
  cbn;
  destruct (http W _) as [resp | ?]; cbn;
  [destruct (raise_for_status resp); cbn; [destruct (body_json resp); cbn |] |].

Lemma list_emails_trace (W : world) (limit : Z) :
  snd (list_emails W limit) = [list_emails_request limit].
Proof. unfold list_emails, requests_get. exchange W; reflexivity. Qed.

Lemma summarize_emails_trace (W : world) (limit : Z) :
  snd (summarize_emails W limit) = [summarize_emails_request limit].
Proof. unfold summarize_emails, requests_get. exchange W; reflexivity. Qed.

Lemma send_email_trace (W : world) (to subject body : string) :
  snd (send_email W to subject body) = [send_email_request to subject body].
Proof. unfold send_email, requests_post. exchange W; reflexivity. Qed.

Lemma list_emails_failure (W : world) (limit : Z) (e : exn) :
  failure_of W (list_emails_request limit) = Some e ->
  fst (list_emails W limit) = Ok (error_result e).
Proof.
  unfold failure_of, list_emails, requests_get, list_emails_request.
  exchange W; intros [= <-]; reflexivity.
Qed.

Lemma summarize_emails_failure (W : world) (limit : Z) (e : exn) :
  failure_of W (summarize_emails_request limit) = Some e ->
  fst (summarize_emails W limit) = Ok (error_result e).
Proof.
  unfold failure_of, summarize_emails, requests_get, summarize_emails_request.
  exchange W; intros [= <-]; reflexivity.
Qed.

Lemma send_email_failure (W : world) (to subject body : string) (e : exn) :
  failure_of W (send_email_request to subject body) = Some e ->
  fst (send_email W to subject body) = Ok (error_result e).
Proof.
  unfold failure_of, send_email, requests_post, send_email_request.
  exchange W; intros [= <-]; reflexivity.
Qed.

(** Without a failure the helper returns the JSON body of the response. *)
Lemma list_emails_success (W : world) (limit : Z) (resp : http_response) (data : pyval) :
  http W (list_emails_request limit) = Ok resp ->
  raise_for_status resp = Ok tt ->
  body_json resp = Ok data ->
  list_emails W limit = (Ok data, [list_emails_request limit]).
Proof.
  intros H R J. unfold list_emails, requests_get, list_emails_request in *.
  cbv zeta. rewrite H. cbn. rewrite R. cbn. now rewrite J.
Qed.

(** C8, as the code has it.  Each helper sends one request with a fixed
    timeout: 10 for list, 10 for summarize, 15 for send.  The summarize
    timeout equals the list timeout and is below the send timeout.  An
    exception of the HTTP library, a timeout among them, is turned into
    [{"error": str(e)}] like a failing status or an unreadable body. *)
Theorem api_timeouts (W : world) (limit : Z) (to subject body : string) :
  let listing := list_emails_request limit in
  let summarizing := summarize_emails_request limit in
  let sending := send_email_request to subject body in
  (snd (list_emails W limit) = [listing] /\ timeout listing = 10%Z)
  /\ (snd (summarize_emails W limit) = [summarizing] /\ timeout summarizing = 10%Z)
  /\ (snd (send_email W to subject body) = [sending] /\ timeout sending = 15%Z)
  /\ (timeout summarizing = timeout listing /\ (timeout summarizing < timeout sending)%Z)
  /\ (forall req e, http W req = Raised e -> failure_of W req = Some e)
  /\ (forall e,
        (failure_of W listing = Some e ->
           fst (list_emails W limit) = Ok (error_result e))
        /\ (failure_of W summarizing = Some e ->
              fst (summarize_emails W limit) = Ok (error_result e))
        /\ (failure_of W sending = Some e ->
              fst (send_email W to subject body) = Ok (error_result e))).
Proof.
  intros listing summarizing sending.
  split; [split; [apply list_emails_trace | reflexivity] |].
  split; [split; [apply summarize_emails_trace | reflexivity] |].
  split; [split; [apply send_email_trace | reflexivity] |].
  split; [split; [reflexivity | reflexivity] |].
  split.
  - intros req e H. unfold failure_of. now rewrite H.
  - intros e. split; [apply list_emails_failure |].
    split; [apply summarize_emails_failure | apply send_email_failure].
Qed.

Lemma api_timeouts_witness :
  let timed_out := Exn "ReadTimeout" "Read timed out. (read timeout=10)" in
  let refused := Exn "ConnectionError" "Connection refused" in
  let failing :=
    {| status_code := 500; http_error := "500 Server Error";
       body_json := Ok (PDict [("error", PStr "boom")]) |} in
  summarize_emails (fixed_network (Raised timed_out)) 5
    = (Ok (PDict [("error", PStr "Read timed out. (read timeout=10)")]),
       [summarize_emails_request 5])
  /\ list_emails (fixed_network (Raised refused)) 3
     = (Ok (PDict [("error", PStr "Connection refused")]), [list_emails_request 3])
  /\ send_email (fixed_network (Ok failing)) "a@b.com" "Hi" "Hi"
     = (Ok (PDict [("error", PStr "500 Server Error")]),
        [send_email_request "a@b.com" "Hi" "Hi"]).
Proof.
  intros timed_out refused failing.
  split; [| split].
  - destruct (api_timeouts (fixed_network (Raised timed_out)) 5 "" "" "")
      as [_ [[T _] [_ [_ [_ F]]]]].
    destruct (F timed_out) as [_ [Fs _]].
    apply injective_projections; [exact (Fs eq_refl) | exact T].
  - destruct (api_timeouts (fixed_network (Raised refused)) 3 "" "" "")
      as [[T _] [_ [_ [_ [_ F]]]]].
    destruct (F refused) as [Fl _].
    apply injective_projections; [exact (Fl eq_refl) | exact T].
  - destruct (api_timeouts (fixed_network (Ok failing)) 0 "a@b.com" "Hi" "Hi")
      as [_ [_ [[T _] [_ [_ F]]]]].
    destruct (F (Exn "HTTPError" "500 Server Error")) as [_ [_ Fp]].
    apply injective_projections; [exact (Fp eq_refl) | exact T].
Defined.

(** C8, as the specification words it, fails: the summarize timeout exceeds
    neither the list timeout nor the send timeout. *)
Lemma summarize_timeout_not_longer :
  let W := fixed_network (Raised (Exn "ReadTimeout" "Read timed out.")) in
  ~ (forall listing summarizing sending : Z,
       map timeout (snd (list_emails W 3)) = [listing] ->
       map timeout (snd (summarize_emails W 5)) = [summarizing] ->
       map timeout (snd (send_email W "a@b.com" "Hi" "Hi")) = [sending] ->
       (listing < summarizing /\ sending < summarizing)%Z).
Proof.
  intros W H. specialize (H 10%Z 10%Z 15%Z eq_refl eq_refl eq_refl). lia.
Qed.

End ApiHelpers.

(* ------------------------------------------------------------------ *)
(** ** The send-email parameter extractor *)
(* ------------------------------------------------------------------ *)

Section Extractor.
Import Streamlit_app.

Lemma parse_send_absent (prompt : string) :
  ~ substring "send an email to" prompt ->
  parse_send prompt = Raised (Exn "IndexError" "list index out of range").
Proof.
  intros H. unfold parse_send. now rewrite (split_absent _ _ H).
Qed.

Lemma extract_absent (prompt : string) :
  ~ substring "send an email to" prompt ->
  extract prompt = ("unknown@example.com", "Hello!").
Proof.
  intros H. unfold extract. now rewrite (parse_send_absent _ H).
Qed.

(** The piece with index 1: what follows the first phrase, up to the next. *)
Lemma parse_send_found (prompt pre rest seg : string) :
  leftmost "send an email to" prompt pre rest ->
  first_piece "send an email to" rest seg ->
  parse_send prompt =
    (let parts := split "saying" (strip seg) in
     first <- list_index parts 0 ;;
     body <- (if (1 <? List.length parts)%nat
              then second <- list_index parts 1 ;; ret (strip second)
              else ret "Hello!") ;;
     ret (strip first, body)).
Proof.
  intros L P. unfold parse_send.
  rewrite (split_leftmost "send an email to" _ _ _ ltac:(discriminate) L).
  destruct (split_first_piece "send an email to" _ _ ltac:(discriminate) P)
    as [tl ->].
  reflexivity.
Qed.

(** [everything_after] is what follows the leftmost occurrence. *)
Lemma everything_after_leftmost (sep s pre post : string) :
  leftmost sep s pre post -> everything_after sep s = Some post.
Proof.
  revert s. induction pre as [|c pre IH]; intros s L.
  - destruct L as [-> _]. cbn [append].
    assert (H : startswith sep (sep ++ post) = true)
      by (apply startswith_spec; now exists post).
    destruct (sep ++ post) eqn:E; cbn [everything_after]; rewrite H;
      rewrite <- E; now rewrite drop_all.
  - pose proof (leftmost_no_start _ _ _ _ _ L) as Hno.
    destruct L as [E H]. subst s. cbn [append everything_after] in *.
    rewrite Hno. apply IH. apply (leftmost_tail sep _ pre post c).
    split; [reflexivity | exact H].
Qed.

(** Where the phrase occurs once, the piece taken is everything after
    it. *)
Lemma extract_single_phrase (prompt pre rest : string) :
  leftmost "send an email to" prompt pre rest ->
  ~ substring "send an email to" rest ->
  extract prompt = extract_everything_after prompt.
Proof.
  intros L Hno. unfold extract, extract_everything_after.
  rewrite (parse_send_found prompt pre rest rest L (or_introl (conj Hno eq_refl))).
  rewrite (everything_after_leftmost _ _ _ _ L).
  destruct (split "saying" (strip rest)) as [|first [|second parts]] eqn:E.
  - now apply split_not_nil in E.
  - reflexivity.
  - reflexivity.
Qed.

(** Every prompt falls under one of the three cases of the extractor. *)
Lemma extract_cases (prompt : string) :
  ~ substring "send an email to" prompt
  \/ exists pre rest seg,
       leftmost "send an email to" prompt pre rest
       /\ first_piece "send an email to" rest seg
       /\ (~ substring "saying" (strip seg)
           \/ exists recipient more body,
                leftmost "saying" (strip seg) recipient more
                /\ first_piece "saying" more body).
Proof.
  destruct (contains "send an email to" prompt) eqn:C;
    [right | left; now apply contains_false].
  apply contains_spec in C. destruct (leftmost_exists _ _ C) as [pre [rest L]].
  destruct (first_piece_exists "send an email to" rest) as [seg P].
  exists pre, rest, seg. split; [exact L | split; [exact P |]].
  destruct (contains "saying" (strip seg)) eqn:S;
    [right | left; now apply contains_false].
  apply contains_spec in S. destruct (leftmost_exists _ _ S) as [r [more L2]].
  destruct (first_piece_exists "saying" more) as [b P2].
  now exists r, more, b.
Qed.

(** C2, as the code has it.  The extractor splits the prompt on
    "send an email to" and takes the piece after the first occurrence:
    the text up to the next occurrence of the phrase, everything after it
    when there is no other.  That piece, trimmed, is split on "saying":
    the first segment, trimmed, is the recipient; the second, trimmed, is
    the body, "Hello!" when "saying" does not occur.  Where the phrase
    occurs once this is the extractor of the specification.  The subject
    is the first 30 characters of the body, "No subject" for an empty
    body.  A prompt without the phrase yields "unknown@example.com" and
    "Hello!" and no error.  "send an email to a@b.com saying Hi there"
    yields "a@b.com", "Hi there" and the subject "Hi there". *)
Theorem extract_spec (prompt : string) :
  (~ substring "send an email to" prompt ->
     extract prompt = ("unknown@example.com", "Hello!"))
  /\ (forall pre rest seg,
        leftmost "send an email to" prompt pre rest ->
        first_piece "send an email to" rest seg ->
        (~ substring "saying" (strip seg) ->
           extract prompt = (strip seg, "Hello!"))
        /\ (forall recipient more body,
              leftmost "saying" (strip seg) recipient more ->
              first_piece "saying" more body ->
              extract prompt = (strip recipient, strip body)))
  /\ (forall pre rest,
        leftmost "send an email to" prompt pre rest ->
        ~ substring "send an email to" rest ->
        extract prompt = extract_everything_after prompt)
  /\ (forall body,
        (body = "" -> subject_of body = "No subject")
        /\ (body <> "" ->
              exists rest, body = subject_of body ++ rest
                /\ String.length (subject_of body) = Nat.min 30 (String.length body)))
  /\ (extract "send an email to a@b.com saying Hi there" = ("a@b.com", "Hi there")
      /\ subject_of "Hi there" = "Hi there").
Proof.
  split; [apply extract_absent |].
  split; [| split; [apply extract_single_phrase | split]].
  - intros pre rest seg L P. unfold extract.
    rewrite (parse_send_found _ _ _ _ L P). split.
    + intros Hno. rewrite (split_absent _ _ Hno). cbn.
      now rewrite strip_idempotent.
    + intros recipient more body L2 P2.
      rewrite (split_leftmost "saying" _ _ _ ltac:(discriminate) L2).
      destruct (split_first_piece "saying" _ _ ltac:(discriminate) P2) as [tl ->].
      reflexivity.
  - intros body. split.
    + intros ->. reflexivity.
    + intros Hne. unfold subject_of.
      destruct (slice_to_spec 30 body) as [rest [E L]].
      destruct (slice_to 30 body) as [|c s] eqn:Es.
      * destruct body; [contradiction | discriminate].
      * exists rest. now split.
  - split; reflexivity.
Qed.

Lemma extract_spec_witness :
  extract "send an email to a@b.com saying Hi there" = ("a@b.com", "Hi there")
  /\ extract "send an email to a@b.com saying hi send an email to c@d.com"
     = ("a@b.com", "hi")
  /\ extract "send an email to bob@example.com" = ("bob@example.com", "Hello!")
  /\ extract "email bob" = ("unknown@example.com", "Hello!").
Proof.
  assert (no : forall needle hay, contains needle hay = false -> ~ substring needle hay)
    by (intros needle hay; apply contains_false).
  split; [| split; [| split]].
  - refine (proj2 (proj1 (proj2
      (extract_spec "send an email to a@b.com saying Hi there"))
      "" " a@b.com saying Hi there" " a@b.com saying Hi there" _ _)
      "a@b.com " " Hi there" " Hi there" _ _).
    + apply leftmost_check; reflexivity.
    + left. split; [apply no |]; reflexivity.
    + apply leftmost_check; reflexivity.
    + left. split; [apply no |]; reflexivity.
  - refine (proj2 (proj1 (proj2
      (extract_spec "send an email to a@b.com saying hi send an email to c@d.com"))
      "" " a@b.com saying hi send an email to c@d.com" " a@b.com saying hi " _ _)
      "a@b.com " " hi" " hi" _ _).
    + apply leftmost_check; reflexivity.
    + right. exists " c@d.com". apply leftmost_check; reflexivity.
    + apply leftmost_check; reflexivity.
    + left. split; [apply no |]; reflexivity.
  - refine (proj1 (proj1 (proj2
      (extract_spec "send an email to bob@example.com"))
      "" " bob@example.com" " bob@example.com" _ _) _).
    + apply leftmost_check; reflexivity.
    + left. split; [apply no |]; reflexivity.
    + apply no. reflexivity.
  - apply (extract_spec "email bob"). apply no. reflexivity.
Defined.

(** C2, as the specification words it, fails where the phrase occurs twice: the
    code stops the body at the second occurrence. *)
Lemma extract_stops_at_second_phrase :
  let prompt := "send an email to a@b.com saying hi send an email to c@d.com" in
  everything_after "send an email to" prompt
    = Some " a@b.com saying hi send an email to c@d.com"
  /\ extract_everything_after prompt = ("a@b.com", "hi send an email to c@d.com")
  /\ extract prompt = ("a@b.com", "hi")
  /\ extract prompt <> extract_everything_after prompt.
Proof. repeat split; try reflexivity. discriminate. Qed.

(** The calls of one chat turn: the branch taken decides the helper. *)
Lemma reply_to_calls (W : world) (prompt : string) :
  snd (reply_to W prompt)
  = match classify (normalize prompt) with
    | LIST_EMAILS => [list_emails_request 3]
    | SUMMARIZE => [summarize_emails_request 5]
    | SEND_EMAIL =>
        [send_email_request (fst (extract prompt))
                            (subject_of (snd (extract prompt)))
                            (snd (extract prompt))]
    | UNKNOWN => []
    end.
Proof.
  unfold reply_to. destruct (classify (normalize prompt)).
  - rewrite trace_then_lift. apply list_emails_trace.
  - rewrite trace_then_lift. apply summarize_emails_trace.
  - destruct (extract prompt) as [recipient body].
    rewrite trace_then_lift. apply send_email_trace.
  - reflexivity.
Qed.

(** C10.  The classifier reads the lower-cased prompt and the extractor
    the prompt as typed: when "send an email to" occurs in the lower-cased
    text but not in the prompt itself, the SEND_EMAIL test succeeds, the
    extractor falls back to "unknown@example.com" and "Hello!", and a
    prompt that reaches the send branch posts those placeholders. *)
Theorem extract_case_mismatch (W : world) (prompt : string) :
  substring "send an email to" (lower prompt) ->
  ~ substring "send an email to" prompt ->
  contains "send an email to" (normalize prompt) = true
  /\ extract prompt = ("unknown@example.com", "Hello!")
  /\ subject_of (snd (extract prompt)) = "Hello!"
  /\ (classify (normalize prompt) = SEND_EMAIL ->
      snd (reply_to W prompt)
        = [send_email_request "unknown@example.com" "Hello!" "Hello!"]).
Proof.
  intros Hlow Hraw.
  pose proof (extract_absent _ Hraw) as E.
  split; [| split; [exact E | split; [now rewrite E |]]].
  - apply contains_spec. unfold normalize. apply substring_strip; [| | exact Hlow].
    + exists "s"%char, "end an email to". now split.
    + exists "send an email t", "o"%char. now split.
  - intros C. now rewrite reply_to_calls, C, E.
Qed.

Lemma extract_case_mismatch_witness :
  let prompt := "Send an email to bob@example.com saying hi" in
  let W := fixed_network (Raised (Exn "ConnectionError" "Connection refused")) in
  classify (normalize prompt) = SEND_EMAIL
  /\ extract prompt = ("unknown@example.com", "Hello!")
  /\ snd (reply_to W prompt)
     = [send_email_request "unknown@example.com" "Hello!" "Hello!"].
Proof.
  intros prompt W.
  assert (Hlow : substring "send an email to" (lower prompt))
    by (apply contains_spec; reflexivity).
  assert (Hraw : ~ substring "send an email to" prompt)
    by (apply contains_false; reflexivity).
  destruct (extract_case_mismatch W prompt Hlow Hraw) as [_ [E [_ T]]].
  split; [reflexivity | split; [exact E | exact (T eq_refl)]].
Defined.

End Extractor.

(* ------------------------------------------------------------------ *)
(** ** Dicts *)
(* ------------------------------------------------------------------ *)

Lemma dict_lookup_set_same (k : string) (v : pyval) (d : dict) :
  dict_lookup k (dict_set k v d) = Some v.
Proof.
  induction d as [|[k' v'] d IH]; simpl.
  - now rewrite String.eqb_refl.
  - destruct (k' =? k) eqn:E; simpl.
    + now rewrite String.eqb_refl.
    + now rewrite E.
Qed.

Lemma dict_lookup_set_other (k k' : string) (v : pyval) (d : dict) :
  k <> k' -> dict_lookup k (dict_set k' v d) = dict_lookup k d.
Proof.
  intros Hne. induction d as [|[k0 v0] d IH]; simpl.
  - destruct (k' =? k) eqn:E; [| reflexivity].
    apply String.eqb_eq in E. congruence.
  - destruct (k0 =? k') eqn:E0; simpl.
    + apply String.eqb_eq in E0. subst k0.
      destruct (k' =? k) eqn:E; [| reflexivity].
      apply String.eqb_eq in E. congruence.
    + now rewrite IH.
Qed.

Lemma dict_has_has_key (k : string) (d : dict) : dict_has k d = has_key k d.
Proof.
  unfold dict_has, has_key. induction d as [|[k' v'] d IH]; simpl; [reflexivity |].
  destruct (k' =? k); [reflexivity | exact IH].
Qed.

Lemma dict_lookup_update_absent (k : string) (items : list (string * pyval)) (d : dict) :
  has_key k items = false -> dict_lookup k (dict_update d items) = dict_lookup k d.
Proof.
  unfold dict_update. revert d.
  induction items as [|[k' v'] items IH]; intros d H; simpl in *; [reflexivity |].
  apply orb_false_iff in H. destruct H as [Hk Hrest].
  rewrite (IH _ Hrest). apply dict_lookup_set_other.
  apply String.eqb_neq in Hk. congruence.
Qed.

Lemma dict_has_set (k k' : string) (v : pyval) (d : dict) :
  dict_has k (dict_set k' v d) = (k' =? k) || dict_has k d.
Proof.
  unfold dict_has. destruct (k' =? k) eqn:E.
  - apply String.eqb_eq in E. subst. now rewrite dict_lookup_set_same.
  - rewrite dict_lookup_set_other; [reflexivity |].
    apply String.eqb_neq in E. congruence.
Qed.

Lemma dict_has_update (k : string) (items : list (string * pyval)) (d : dict) :
  dict_has k (dict_update d items) = dict_has k d || has_key k items.
Proof.
  unfold dict_update. revert d.
  induction items as [|[k' v'] items IH]; intros d; simpl.
  - now rewrite orb_false_r.
  - rewrite IH, dict_has_set.
    destruct (k' =? k), (dict_has k d), (has_key k items); reflexivity.
Qed.

Lemma has_key_filter (k : string) (keep : string -> bool) (items : list (string * pyval)) :
  has_key k (filter (fun kv => keep (fst kv)) items) = keep k && has_key k items.
Proof.
  unfold has_key. induction items as [|[k' v'] items IH]; simpl.
  - now rewrite andb_false_r.
  - destruct (keep k') eqn:Ek'; simpl; rewrite IH.
    + destruct (k' =? k) eqn:E; simpl.
      * apply String.eqb_eq in E. subst. now rewrite Ek'.
      * reflexivity.
    + destruct (k' =? k) eqn:E; simpl; [| reflexivity].
      apply String.eqb_eq in E. subst. rewrite Ek'. reflexivity.
Qed.

Lemma has_key_lookup (k : string) (items : list (string * pyval)) :
  has_key k items = false -> dict_lookup k items = None.
Proof.
  rewrite <- dict_has_has_key. unfold dict_has.
  now destruct (dict_lookup k items).
Qed.

Lemma lookup_has_key (k : string) (v : pyval) (items : list (string * pyval)) :
  dict_lookup k items = Some v -> In k (map fst items).
Proof.
  induction items as [|[k' v'] items IH]; [discriminate |]. cbn.
  destruct (String.eqb_spec k' k); [now left | intros H; right; now apply IH].
Qed.

(** With distinct keys, [update] gives each key the value of its item. *)
Lemma dict_lookup_update_item (k : string) (v : pyval)
    (items : list (string * pyval)) (d : dict) :
  NoDup (map fst items) -> dict_lookup k items = Some v ->
  dict_lookup k (dict_update d items) = Some v.
Proof.
  unfold dict_update. revert d.
  induction items as [|[k' v'] items IH]; intros d Hnd H; [discriminate |].
  inversion Hnd as [|? ? Hnotin Hnd']; subst. cbn in H |- *.
  destruct (String.eqb_spec k' k) as [-> | Hne].
  - injection H as ->.
    change (fold_left (fun acc kv => dict_set (fst kv) (snd kv) acc) items
              (dict_set k v d)) with (dict_update (dict_set k v d) items).
    rewrite dict_lookup_update_absent; [apply dict_lookup_set_same |].
    destruct (has_key k items) eqn:E; [| reflexivity].
    rewrite <- dict_has_has_key in E. unfold dict_has in E.
    destruct (dict_lookup k items) eqn:L; [| discriminate].
    exfalso. apply Hnotin. now apply (lookup_has_key k p).
  - now apply IH.
Qed.

Lemma dict_lookup_filter (k : string) (keep : string -> bool)
    (items : list (string * pyval)) :
  keep k = true ->
  dict_lookup k (filter (fun kv => keep (fst kv)) items) = dict_lookup k items.
Proof.
  intros Hk. induction items as [|[k' v'] items IH]; [reflexivity |]. cbn.
  destruct (keep k') eqn:Ek'; cbn.
  - destruct (k' =? k); [reflexivity | exact IH].
  - destruct (String.eqb_spec k' k); [congruence | exact IH].
Qed.

Lemma NoDup_keys_filter (keep : string * pyval -> bool) (items : list (string * pyval)) :
  NoDup (map fst items) -> NoDup (map fst (filter keep items)).
Proof.
  induction items as [|kv items IH]; intros H; [constructor |].
  inversion H as [|? ? Hnotin Hnd]; subst. cbn.
  destruct (keep kv); [| now apply IH]. cbn. constructor; [| now apply IH].
  intros Hin. apply Hnotin.
  apply in_map_iff in Hin. destruct Hin as [x [Hx Hf]].
  apply filter_In in Hf. apply in_map_iff. exists x. tauto.
Qed.

Lemma dict_has_single (k k' : string) (v : pyval) :
  dict_has k [(k', v)] = (k' =? k).
Proof. unfold dict_has. cbn [dict_lookup]. now destruct (k' =? k). Qed.

(* ------------------------------------------------------------------ *)
(** ** send_view *)
(* ------------------------------------------------------------------ *)

Section SendView.
Import Main.

Lemma serializer_accepts (d : dict) (t s b : string) :
  dict_lookup "to" d = Some (PStr t) -> t <> "" ->
  dict_lookup "subject" d = Some (PStr s) -> s <> "" ->
  dict_lookup "body" d = Some (PStr b) -> b <> "" ->
  SendEmailSerializer (PDict d) = inl {| to := t; subject := s; body := b |}.
Proof.
  intros Et Ht Es Hs Eb Hb. unfold SendEmailSerializer, required_field.
  rewrite Et, Es, Eb.
  apply String.eqb_neq in Ht, Hs, Hb. now rewrite Ht, Hs, Hb.
Qed.

(** The keys of the response before the answer's fields are copied. *)
Lemma send_result_base_keys (r : dict) (k : string) :
  dict_has k (match dict_lookup "id" r with
              | Some v => dict_set "message_id" v [("ok", PBool true)]
              | None => [("ok", PBool true)]
              end)
  = match dict_lookup "id" r with
    | Some _ => ("message_id" =? k) || ("ok" =? k)
    | None => "ok" =? k
    end.
Proof.
  destruct (dict_lookup "id" r).
  - now rewrite dict_has_set, dict_has_single.
  - apply dict_has_single.
Qed.

Lemma send_result_ok (sent : pyval) :
  dict_lookup "ok" (send_result sent) = Some (PBool true).
Proof.
  destruct sent as [| | | |l|r]; try reflexivity.
  unfold send_result.
  set (result := match dict_lookup "id" r with
                 | Some v => dict_set "message_id" v [("ok", PBool true)]
                 | None => [("ok", PBool true)]
                 end).
  assert (Hok : dict_lookup "ok" result = Some (PBool true))
    by (subst result; destruct (dict_lookup "id" r); reflexivity).
  rewrite dict_lookup_update_absent; [exact Hok |].
  rewrite (has_key_filter "ok" (fun k => negb (dict_has k result))).
  unfold dict_has. now rewrite Hok.
Qed.

Lemma send_result_message_id (r : dict) :
  dict_has "message_id" (send_result (PDict r))
    = dict_has "id" r || dict_has "message_id" r.
Proof.
  unfold send_result.
  set (result := match dict_lookup "id" r with
                 | Some v => dict_set "message_id" v [("ok", PBool true)]
                 | None => [("ok", PBool true)]
                 end).
  rewrite dict_has_update.
  rewrite (has_key_filter "message_id" (fun k => negb (dict_has k result))).
  rewrite <- dict_has_has_key.
  subst result. unfold dict_has.
  destruct (dict_lookup "id" r); reflexivity.
Qed.

Lemma send_result_copies_id (r : dict) (v : pyval) :
  dict_lookup "id" r = Some v ->
  dict_lookup "message_id" (send_result (PDict r)) = Some v.
Proof.
  intros E. unfold send_result. rewrite E.
  rewrite dict_lookup_update_absent; [reflexivity |].
  now rewrite (has_key_filter "message_id"
    (fun k => negb (dict_has k (dict_set "message_id" v [("ok", PBool true)])))).
Qed.

(** With distinct keys, every field of the answer is passed on, apart
    from "ok" and from a "message_id" beside an "id". *)
Lemma send_result_passes (r : dict) (k : string) (v : pyval) :
  NoDup (map fst r) -> dict_lookup k r = Some v ->
  k <> "ok" -> (k = "message_id" -> dict_lookup "id" r = None) ->
  dict_lookup k (send_result (PDict r)) = Some v.
Proof.
  intros Hnd Hk Hok Hmid. unfold send_result.
  set (result := match dict_lookup "id" r with
                 | Some v => dict_set "message_id" v [("ok", PBool true)]
                 | None => [("ok", PBool true)]
                 end).
  assert (Hkeep : negb (dict_has k result) = true).
  { subst result. rewrite send_result_base_keys.
    destruct (String.eqb_spec "ok" k); [congruence |].
    destruct (dict_lookup "id" r) eqn:Eid; [| reflexivity].
    destruct (String.eqb_spec "message_id" k) as [<- |]; [| reflexivity].
    discriminate (Hmid eq_refl). }
  apply dict_lookup_update_item; [now apply NoDup_keys_filter |].
  now rewrite (dict_lookup_filter k (fun k => negb (dict_has k result)) r Hkeep).
Qed.

(** C3, as the code has it.  For a valid send request ([to], [subject]
    and [body] non-empty strings) the handler calls [send_message] exactly
    once, with those three values.  When the call returns, the response
    has status 200 and "ok" true, and it has a "message_id" exactly when
    the result is a dict with an "id" or with a "message_id" of its own:
    an "id" is copied to "message_id", and every other field of the
    result (its keys distinct) is copied under its own name, apart from
    "ok", which stays true, and from a "message_id" beside an "id", which
    gives way to the id.  When the call raises, the response is the server
    error with the text of the exception. *)
Theorem send_view_spec (W : world) (d : dict) (t s b : string) :
  dict_lookup "to" d = Some (PStr t) -> t <> "" ->
  dict_lookup "subject" d = Some (PStr s) -> s <> "" ->
  dict_lookup "body" d = Some (PStr b) -> b <> "" ->
  snd (send_view W (PDict d)) = [call_send_message t s b]
  /\ (forall sent, send_message W t s b = Ok sent ->
       exists fields,
         fst (send_view W (PDict d)) = Ok {| data := PDict fields; status := 200 |}
         /\ dict_lookup "ok" fields = Some (PBool true)
         /\ (dict_has "message_id" fields = true <->
               exists r, sent = PDict r
                 /\ (dict_has "id" r = true \/ dict_has "message_id" r = true))
         /\ (forall r v, sent = PDict r -> dict_lookup "id" r = Some v ->
               dict_lookup "message_id" fields = Some v)
         /\ (forall r k v, sent = PDict r -> NoDup (map fst r) ->
               dict_lookup k r = Some v -> k <> "ok" ->
               (k = "message_id" -> dict_lookup "id" r = None) ->
               dict_lookup k fields = Some v))
  /\ (forall e, send_message W t s b = Raised e ->
       fst (send_view W (PDict d)) = Ok (server_error e)).
Proof.
  intros Et Ht Es Hs Eb Hb.
  unfold send_view. rewrite (serializer_accepts d t s b Et Ht Es Hs Eb Hb).
  cbn [to subject body]. split; [| split].
  - cbn. destruct (send_message W t s b); reflexivity.
  - intros sent Hsent. exists (send_result sent). cbn. rewrite Hsent. cbn.
    split; [reflexivity |]. split; [apply send_result_ok |]. split; [| split].
    + split.
      * intros H. destruct sent as [| | | |l|r]; try discriminate H.
        exists r. split; [reflexivity |].
        rewrite send_result_message_id in H. now apply orb_true_iff.
      * intros [r [-> H]]. rewrite send_result_message_id. now apply orb_true_iff.
    + intros r v -> E. now apply send_result_copies_id.
    + intros r k v -> Hnd Hk Hok Hmid. now apply send_result_passes.
  - intros e He. cbn. now rewrite He.
Qed.

Lemma send_view_spec_witness :
  let W := fixed_backend (Ok (PDict [("id", PStr "18c2"); ("threadId", PStr "18c0")]))
                         (Ok []) None in
  snd (send_view W hello_request) = [call_send_message "a@b.com" "Hi" "Hello"]
  /\ fst (send_view W hello_request)
     = Ok {| data := PDict [("ok", PBool true); ("message_id", PStr "18c2");
                            ("id", PStr "18c2"); ("threadId", PStr "18c0")];
             status := 200 |}.
Proof.
  intros W.
  destruct (send_view_spec W
              [("to", PStr "a@b.com"); ("subject", PStr "Hi"); ("body", PStr "Hello")]
              "a@b.com" "Hi" "Hello"
              eq_refl ltac:(discriminate) eq_refl ltac:(discriminate)
              eq_refl ltac:(discriminate)) as [Htrace _].
  split; [exact Htrace | reflexivity].
Defined.

(** C3, as the specification words it, fails for a result that carries a
    "message_id" and no "id" (the field is copied like any other), and
    when [send_message] raises (the response has no "ok"). *)
Lemma send_view_message_id_without_id :
  let sent := PDict [("message_id", PStr "18c2")] in
  let W := fixed_backend (Ok sent) (Ok []) None in
  let W' := fixed_backend (Raised (Exn "HttpError" "Invalid To header")) (Ok []) None in
  (fst (send_view W hello_request)
     = Ok {| data := PDict [("ok", PBool true); ("message_id", PStr "18c2")];
             status := 200 |}
   /\ py_getitem sent "id" = Raised (Exn "KeyError" "'id'")
   /\ ~ (dict_has "message_id" [("ok", PBool true); ("message_id", PStr "18c2")] = true
         <-> dict_has "id" [("message_id", PStr "18c2")] = true))
  /\ send_view W' hello_request
     = (Ok {| data := PDict [("error", PStr "Invalid To header")]; status := 500 |},
        [call_send_message "a@b.com" "Hi" "Hello"]).
Proof.
  repeat split. intros [H _]. specialize (H eq_refl). discriminate H.
Qed.

End SendView.

(* ------------------------------------------------------------------ *)
(** ** list_view and summary_view *)
(* ------------------------------------------------------------------ *)

Section ListAndSummary.
Import Main.

Lemma py_or_chain (a b c : pyval) :
  py_or (py_or a b) c = first_truthy [a; b; c].
Proof.
  unfold py_or. simpl. destruct (truthy a) eqn:Ea.
  - now rewrite Ea.
  - reflexivity.
Qed.

Lemma body_slice (m : dict) (s : string) :
  body_text m = Some s ->
  py_slice_to 2000 (py_or (dict_get "body" m) (PStr "")) = Ok (PStr (slice_to 2000 s)).
Proof.
  unfold body_text, py_or.
  destruct (dict_get "body" m) as [|b|n|x|l|d]; cbn.
  - intros [= <-]. reflexivity.
  - destruct b; [discriminate | intros [= <-]; reflexivity].
  - destruct (n =? 0)%Z; [intros [= <-]; reflexivity | discriminate].
  - intros [= <-]. destruct x; reflexivity.
  - destruct l; [intros [= <-]; reflexivity | discriminate].
  - destruct d; [intros [= <-]; reflexivity | discriminate].
Qed.

Lemma simplified_message_shape (m : dict) (s : string) :
  body_text m = Some s -> simplified_message m = Ok (simplified_shape m s).
Proof.
  intros Hb. unfold simplified_message. rewrite (body_slice m s Hb). cbn.
  now rewrite !py_or_chain.
Qed.

(** C5, as the code has it.  A raw message whose body is text (or is
    missing or falsy) is mapped to the fixed shape of eight fields.
    "from" is the first truthy value among "from", "sender" and
    "emailFrom", and "subject" the first truthy among "subject", "title"
    and "header_subject": a null or empty value is passed over, and the
    last alternative stands when none is truthy.  The body is cut to its
    first 2000 characters.  In particular a message without "from" whose
    "sender" is truthy has the sender's value as "from". *)
Theorem list_normalization (m : dict) (s : string) :
  body_text m = Some s ->
  simplified_message m = Ok (simplified_shape m s)
  /\ (exists rest, s = slice_to 2000 s ++ rest
        /\ String.length (slice_to 2000 s) = Nat.min 2000 (String.length s))
  /\ (dict_lookup "from" m = None -> truthy (dict_get "sender" m) = true ->
      py_getitem (simplified_shape m s) "from" = Ok (dict_get "sender" m)).
Proof.
  intros Hb. split; [| split].
  - now apply simplified_message_shape.
  - apply slice_to_spec.
  - intros Hfrom Hsender. cbn. unfold dict_get at 1, dict_get_default.
    rewrite Hfrom. cbn. now rewrite Hsender.
Qed.

Lemma list_normalization_witness :
  let m := [("id", PStr "18c2"); ("sender", PStr "alice@example.com");
            ("title", PStr "Lunch"); ("body", PStr "See you at noon")] in
  simplified_message m
  = Ok (PDict [("id", PStr "18c2"); ("threadId", PNone);
               ("from", PStr "alice@example.com"); ("to", PNone);
               ("subject", PStr "Lunch"); ("snippet", PNone); ("time", PNone);
               ("body", PStr "See you at noon")]).
Proof.
  intros m.
  exact (proj1 (list_normalization m "See you at noon" eq_refl)).
Defined.

(** C5, as the specification words it, fails on an empty string: it is
    not null, yet the code passes it over. *)
Lemma empty_from_is_passed_over :
  let m := [("from", PStr ""); ("sender", PStr "alice@example.com")] in
  let m' := [("sender", PStr ""); ("emailFrom", PStr "bob@example.com")] in
  (exists shape, simplified_message m = Ok shape
     /\ py_getitem shape "from" = Ok (PStr "alice@example.com")
     /\ first_non_null [dict_get "from" m; dict_get "sender" m; dict_get "emailFrom" m]
        = PStr ""
     /\ py_getitem shape "from"
        <> Ok (first_non_null [dict_get "from" m; dict_get "sender" m;
                               dict_get "emailFrom" m]))
  /\ (exists shape', simplified_message m' = Ok shape'
        /\ dict_lookup "from" m' = None
        /\ dict_lookup "sender" m' = Some (PStr "")
        /\ py_getitem shape' "from" = Ok (PStr "bob@example.com")
        /\ py_getitem shape' "from" <> Ok (dict_get "sender" m')).
Proof.
  split; eexists; repeat split; discriminate.
Qed.

Lemma simplify_all_shapes (msgs : list dict) (acc : list pyval) :
  Forall (fun m => body_text m <> None) msgs ->
  simplify_all msgs acc
  = Ok (acc ++ map (fun m => simplified_shape m
                      (match body_text m with Some s => s | None => "" end)) msgs)%list.
Proof.
  revert acc. induction msgs as [|m msgs IH]; intros acc H.
  - simpl. now rewrite app_nil_r.
  - inversion H as [|? ? Hm Hrest]; subst. cbn [simplify_all].
    destruct (body_text m) as [s|] eqn:E; [| contradiction].
    rewrite (simplified_message_shape m s E). cbn.
    rewrite (IH _ Hrest). cbn [map]. rewrite E, <- app_assoc. reflexivity.
Qed.

End ListAndSummary.

Section Handlers.
Import Main.

(** The list handler answers with the shapes of the messages, in order. *)
Lemma list_view_shapes (W : world) (GET : QueryDict) (msgs : list dict) :
  list_messages W (Given (qd_get "q" GET)) (parse_limit GET 10) = Ok msgs ->
  Forall (fun m => body_text m <> None) msgs ->
  fst (list_view W GET)
  = Ok (respond (PList (map (fun m => simplified_shape m
                               (match body_text m with Some s => s | None => "" end))
                            msgs))).
Proof.
  intros Hl Hb. unfold list_view. cbn. rewrite Hl. cbn.
  now rewrite (simplify_all_shapes msgs [] Hb).
Qed.

Lemma list_view_trace (W : world) (GET : QueryDict) :
  snd (list_view W GET)
  = [call_list_messages (Given (qd_get "q" GET)) (parse_limit GET 10)].
Proof.
  unfold list_view. cbn.
  destruct (list_messages W _ _) as [msgs | e]; cbn; [| reflexivity].
  destruct (simplify_all msgs []); reflexivity.
Qed.

Lemma summary_view_trace (W : world) (GET : QueryDict) :
  exists rest,
    snd (summary_view W GET) = call_list_messages Omitted (parse_limit GET 5) :: rest
    /\ (truthy (getattr (OPENAI_API_KEY W) PNone) = false -> rest = []).
Proof.
  unfold summary_view. cbn.
  destruct (list_messages W _ _) as [msgs | e]; cbn.
  - destruct (truthy (getattr (OPENAI_API_KEY W) PNone)); cbn.
    + destruct (ChatCompletion_create W _ _ _ _); cbn; eexists; split;
        try reflexivity; discriminate.
    + eexists; split; reflexivity.
  - eexists; split; reflexivity.
Qed.

(** C4, as the code has it.  While no OPENAI_API_KEY is configured (the
    setting is absent or falsy) the summary handler never calls the
    completion API: its only call is [list_messages].  When that call
    returns the messages, the response carries their raw snippets, a null
    summary and a non-empty warning.  When it raises, the response is the
    server error with the text of the exception. *)
Theorem summary_without_key (W : world) (GET : QueryDict) :
  truthy (getattr (OPENAI_API_KEY W) PNone) = false ->
  snd (summary_view W GET) = [call_list_messages Omitted (parse_limit GET 5)]
  /\ existsb is_completion_call (snd (summary_view W GET)) = false
  /\ (forall msgs,
       list_messages W Omitted (parse_limit GET 5) = Ok msgs ->
       exists warning,
         fst (summary_view W GET)
         = Ok {| data := PDict [("snippets", PList (map snippet_of msgs));
                                ("summary", PNone);
                                ("warning", PStr warning)];
                 status := 200 |}
         /\ warning <> ""
         /\ (forall m, snippet_of m
                       = first_truthy [dict_get "body" m; dict_get "snippet" m; PStr ""]))
  /\ (forall e,
       list_messages W Omitted (parse_limit GET 5) = Raised e ->
       fst (summary_view W GET) = Ok (server_error e)).
Proof.
  intros Hkey.
  destruct (summary_view_trace W GET) as [rest [Ht Hrest]].
  rewrite Ht, (Hrest Hkey). split; [reflexivity |]. split; [reflexivity |]. split.
  - intros msgs Hl. exists "OPENAI_API_KEY not set in settings.".
    split; [| split].
    + unfold summary_view. cbn. rewrite Hl. cbn. rewrite Hkey. reflexivity.
    + discriminate.
    + intros m. apply py_or_chain.
  - intros e Hl. unfold summary_view. cbn. now rewrite Hl.
Qed.

(** C4, as the specification words it, fails when the mail client raises: the
    response is the server error, without snippets or warning. *)
Lemma summary_without_key_upstream_failure :
  let W := fixed_backend (Ok PNone) (Raised (Exn "RefreshError" "Token has expired"))
                         None in
  truthy (getattr (OPENAI_API_KEY W) PNone) = false
  /\ summary_view W []
     = (Ok {| data := PDict [("error", PStr "Token has expired")]; status := 500 |},
        [call_list_messages Omitted 5])
  /\ ~ (exists snippets warning,
          fst (summary_view W [])
          = Ok {| data := PDict [("snippets", snippets); ("summary", PNone);
                                 ("warning", warning)];
                  status := 200 |}).
Proof.
  repeat split. intros [snippets [warning H]]. discriminate H.
Qed.

Lemma summary_without_key_witness :
  let inbox := [[("id", PStr "1"); ("body", PStr "Invoice attached")];
                [("id", PStr "2"); ("snippet", PStr "Are we still on?")];
                [("id", PStr "3")]] in
  let W := fixed_backend (Ok PNone) (Ok inbox) None in
  snd (summary_view W [("limit", "3")]) = [call_list_messages Omitted 3]
  /\ fst (summary_view W [("limit", "3")])
     = Ok {| data := PDict [("snippets", PList [PStr "Invoice attached";
                                                PStr "Are we still on?"; PStr ""]);
                            ("summary", PNone);
                            ("warning", PStr "OPENAI_API_KEY not set in settings.")];
             status := 200 |}.
Proof.
  intros inbox W.
  destruct (summary_without_key W [("limit", "3")] eq_refl) as [Ht _].
  split; [exact Ht | reflexivity].
Defined.

(** C7.  A [limit] query value that [int] does not parse makes the list
    handler ask for 10 messages and the summary handler for 5.  What [int]
    does not parse includes a number beside one of the separators FS..US,
    which [str.strip] would remove, and a number of more than 4300
    digits. *)
Theorem limit_defaults (W : world) (GET : QueryDict) (v : string) (e : exn) :
  qd_get "limit" GET = Some v ->
  int_of_str v = Raised e ->
  parse_limit GET 10 = 10%Z
  /\ parse_limit GET 5 = 5%Z
  /\ snd (list_view W GET) = [call_list_messages (Given (qd_get "q" GET)) 10]
  /\ exists rest, snd (summary_view W GET) = call_list_messages Omitted 5 :: rest.
Proof.
  intros Hq Hint.
  assert (H : forall default, parse_limit GET default = default).
  { intros default. unfold parse_limit. rewrite Hq. cbn. now rewrite Hint. }
  split; [apply H |]. split; [apply H |]. split.
  - now rewrite list_view_trace, H.
  - destruct (summary_view_trace W GET) as [rest [Ht _]].
    exists rest. now rewrite Ht, H.
Qed.

Lemma limit_defaults_witness :
  let W := fixed_backend (Ok PNone) (Ok []) None in
  let GET := [("limit", "ten"); ("q", "is:unread")] in
  let separated := String (ascii_of_nat 28) "7" in
  snd (list_view W GET) = [call_list_messages (Given (Some "is:unread")) 10]
  /\ snd (summary_view W GET) = [call_list_messages Omitted 5]
  /\ snd (list_view W [("limit", separated)]) = [call_list_messages (Given None) 10].
Proof.
  intros W GET separated.
  destruct (limit_defaults W GET "ten" (invalid_literal "ten") eq_refl eq_refl)
    as [_ [_ [Hl _]]].
  destruct (limit_defaults W [("limit", separated)] separated
              (invalid_literal separated) eq_refl eq_refl) as [_ [_ [Hs _]]].
  split; [exact Hl | split; [reflexivity | exact Hs]].
Defined.

Lemma eq_str_false (v : pyval) (s : string) : v <> PStr s -> eq_str v s = false.
Proof.
  intros H. destruct v; try reflexivity. simpl.
  destruct (String.eqb_spec s0 s); [subst; contradiction | reflexivity].
Qed.

(** C6.  A spam request whose action is none of "mark_spam", "unspam"
    and "unmark_spam" is answered with status 400 and
    [modify_message_labels] is not called.  For a request with the message
    id that the handler requires, the action "mark_spam" makes the one
    call that adds the label "SPAM", and "unspam" or "unmark_spam" the one
    call that removes it; when the call returns, the response is "ok" with
    its result.  (A request without a message id is outside the claim: the
    guard answers it with status 400, whatever its action.) *)
Theorem manage_spam_spec (W : world) (request : dict) :
  let message_id := dict_get "message_id" request in
  let action := dict_get "action" request in
  (unknown_action action ->
     exists message,
       manage_spam W request = (Ok (client_error message), [])
       /\ status (client_error message) = 400%Z)
  /\ (truthy message_id = false ->
        manage_spam W request
        = (Ok (client_error "message_id and action required"), []))
  /\ (truthy message_id = true -> action = PStr "mark_spam" ->
        snd (manage_spam W request)
        = [call_modify_message_labels message_id (Given ["SPAM"]) Omitted]
        /\ forall res,
             modify_message_labels W message_id (Given ["SPAM"]) Omitted = Ok res ->
             fst (manage_spam W request)
             = Ok (respond (PDict [("ok", PBool true); ("result", res)])))
  /\ (truthy message_id = true ->
      action = PStr "unspam" \/ action = PStr "unmark_spam" ->
        snd (manage_spam W request)
        = [call_modify_message_labels message_id Omitted (Given ["SPAM"])]
        /\ forall res,
             modify_message_labels W message_id Omitted (Given ["SPAM"]) = Ok res ->
             fst (manage_spam W request)
             = Ok (respond (PDict [("ok", PBool true); ("result", res)]))).
Proof.
  intros message_id action. unfold manage_spam.
  fold message_id. fold action. split; [| split; [| split]].
  - intros [H1 [H2 H3]].
    destruct (negb (truthy message_id) || negb (truthy action)).
    + now exists "message_id and action required".
    + rewrite (eq_str_false _ _ H1), (eq_str_false _ _ H2), (eq_str_false _ _ H3).
      now exists "unknown action".
  - intros Hid. now rewrite Hid.
  - intros Hid Ha. rewrite Hid, Ha. cbn. split.
    + destruct (modify_message_labels W message_id _ _); reflexivity.
    + intros res ->. reflexivity.
  - intros Hid Ha. rewrite Hid.
    assert (Hact : truthy action = true /\ eq_str action "mark_spam" = false
                   /\ eq_str action "unspam" || eq_str action "unmark_spam" = true)
      by (destruct Ha as [-> | ->]; repeat split).
    destruct Hact as [Ht [Hm Hu]]. rewrite Ht, Hm, Hu. cbn. split.
    + destruct (modify_message_labels W message_id _ _); reflexivity.
    + intros res ->. reflexivity.
Qed.

Lemma manage_spam_spec_witness :
  let W := fixed_backend (Ok PNone) (Ok []) None in
  let request (action : string) : dict :=
    [("message_id", PStr "18c2"); ("action", PStr action)] in
  (exists message,
     manage_spam W (request "archive") = (Ok (client_error message), []))
  /\ (exists message,
        manage_spam W [("message_id", PStr "18c2")] = (Ok (client_error message), []))
  /\ snd (manage_spam W (request "mark_spam"))
     = [call_modify_message_labels (PStr "18c2") (Given ["SPAM"]) Omitted]
  /\ snd (manage_spam W (request "unspam"))
     = [call_modify_message_labels (PStr "18c2") Omitted (Given ["SPAM"])]
  /\ snd (manage_spam W (request "unmark_spam"))
     = [call_modify_message_labels (PStr "18c2") Omitted (Given ["SPAM"])].
Proof.
  intros W request.
  split; [| split; [| split; [| split]]].
  - destruct (manage_spam_spec W (request "archive")) as [H _].
    destruct H as [message [E _]].
    + repeat split; discriminate.
    + now exists message.
  - destruct (manage_spam_spec W [("message_id", PStr "18c2")]) as [H _].
    destruct H as [message [E _]].
    + repeat split; discriminate.
    + now exists message.
  - destruct (manage_spam_spec W (request "mark_spam")) as [_ [_ [H _]]].
    exact (proj1 (H eq_refl eq_refl)).
  - destruct (manage_spam_spec W (request "unspam")) as [_ [_ [_ H]]].
    exact (proj1 (H eq_refl (or_introl eq_refl))).
  - destruct (manage_spam_spec W (request "unmark_spam")) as [_ [_ [_ H]]].
    exact (proj1 (H eq_refl (or_intror eq_refl))).
Defined.

End Handlers.

(* ------------------------------------------------------------------ *)
(** ** The list formatter *)
(* ------------------------------------------------------------------ *)

Section Formatter.
Import Streamlit_app.

Lemma add_entry_dict (W : world) (i : Z) (d : dict) (reply : string) :
  add_entry W i (PDict d) reply = Ok (reply ++ entry_text W i d).
Proof.
  unfold add_entry, entry_text, dict_get, nl. cbn. f_equal.
  repeat (rewrite append_assoc; cbn [append]). reflexivity.
Qed.

Lemma add_entries_dicts (W : world) (ds : list dict) (i : Z) (reply : string) :
  add_entries W (map PDict ds) i reply
  = Ok (reply ++ String.concat "" (entries W i ds)).
Proof.
  revert i reply. induction ds as [|d ds IH]; intros i reply.
  - cbn. now rewrite append_nil_r.
  - cbn [map add_entries entries]. rewrite add_entry_dict. cbn.
    rewrite IH, append_assoc. f_equal. f_equal.
    destruct (entries W (i + 1) ds); cbn; [now rewrite append_nil_r | reflexivity].
Qed.

Lemma has_error_dicts (ds : list dict) : has_error (PList (map PDict ds)) = Ok false.
Proof.
  cbn. f_equal. induction ds as [|d ds IH]; [reflexivity | exact IH].
Qed.

Lemma entries_length (W : world) (i : Z) (ds : list dict) :
  List.length (entries W i ds) = List.length ds.
Proof.
  revert i. induction ds as [|d ds IH]; intros i; cbn; [reflexivity |].
  now rewrite IH.
Qed.

Lemma entries_nth (W : world) (ds : list dict) (i : Z) (k : nat) (d : dict) :
  nth_error ds k = Some d ->
  nth_error (entries W i ds) k = Some (entry_text W (i + Z.of_nat k) d).
Proof.
  revert i k. induction ds as [|d0 ds IH]; intros i k H.
  - destruct k; discriminate.
  - destruct k as [|k].
    + cbn in H. injection H as ->. cbn. now rewrite Z.add_0_r.
    + cbn [nth_error entries] in *. rewrite (IH _ _ H). do 2 f_equal. lia.
Qed.

(** For a list response of N items the formatter returns the header
    followed by exactly N entries, one per item and in order, the k-th of
    which opens with the number k, counted from 1. *)
Lemma list_reply_entries (W : world) (ds : list dict) :
  exists es,
    list_reply W (PList (map PDict ds)) = Ok (list_header ++ String.concat "" es)
    /\ List.length es = List.length ds
    /\ forall k d, nth_error ds k = Some d ->
         nth_error es k = Some (entry_text W (Z.of_nat k + 1) d)
         /\ exists rest, entry_text W (Z.of_nat k + 1) d
                         = "**" ++ str_of_Z (Z.of_nat k + 1) ++ ". " ++ rest.
Proof.
  exists (entries W 1 ds). split; [| split].
  - unfold list_reply. rewrite has_error_dicts. cbn.
    apply add_entries_dicts.
  - apply entries_length.
  - intros k d H. split.
    + rewrite (entries_nth W ds 1 k d H). do 2 f_equal. lia.
    + unfold entry_text. eexists. reflexivity.
Qed.

End Formatter.

(* ------------------------------------------------------------------ *)
(** ** The decimal text of an integer, and the limit parameter *)
(* ------------------------------------------------------------------ *)

(** Reads the value of the digit at the head of the goal. *)
Ltac read_digit :=
  match goal with
  | |- context [digit_value ?c] =>
      let v := eval vm_compute in (digit_value c) in
      change (digit_value c) with v; cbv iota
  end.

Lemma scan_digits_text (d : Decimal.uint) (acc count : Z) :
  scan_digits (NilEmpty.string_of_uint d) acc count true
  = Some (horner d acc,
          (count + Z.of_nat (String.length (NilEmpty.string_of_uint d)))%Z, "").
Proof.
  revert acc count.
  induction d; intros acc count;
    cbn -[Z.mul Z.add Z.of_nat digit_value]; try (now rewrite Z.add_0_r);
    read_digit; rewrite IHd; do 2 f_equal; f_equal; lia.
Qed.

Lemma scan_digits_first (d : Decimal.uint) :
  d <> Decimal.Nil ->
  scan_digits (NilEmpty.string_of_uint d) 0 0 false
  = Some (horner d 0, Z.of_nat (String.length (NilEmpty.string_of_uint d)), "").
Proof.
  destruct d; intros H; [contradiction | ..];
    cbn -[Z.mul Z.add Z.of_nat digit_value];
    read_digit; rewrite scan_digits_text; do 2 f_equal; f_equal; lia.
Qed.

Lemma horner_acc (d : Decimal.uint) (acc : positive) :
  horner d (Zpos acc) = Zpos (Pos.of_uint_acc d acc).
Proof.
  revert acc. induction d; intros acc; cbn [horner Pos.of_uint_acc];
    try reflexivity; rewrite <- IHd; f_equal; lia.
Qed.

Lemma horner_value (d : Decimal.uint) : horner d 0 = Z.of_N (Pos.of_uint d).
Proof.
  induction d; cbn [horner Pos.of_uint]; try reflexivity;
    try (exact IHd); apply horner_acc.
Qed.

Lemma horner_to_uint (p : positive) : horner (Pos.to_uint p) 0 = Zpos p.
Proof. now rewrite horner_value, DecimalPos.Unsigned.of_to. Qed.

Lemma no_space_digits (d : Decimal.uint) : no_space (NilEmpty.string_of_uint d) = true.
Proof. induction d; cbn; try reflexivity; exact IHd. Qed.

(** The decimal text of a positive number opens with a digit: [int]
    skips nothing and reads no sign. *)
Lemma int_of_str_unsigned (d : Decimal.uint) :
  d <> Decimal.Nil ->
  int_of_str (NilEmpty.string_of_uint d)
  = match scan_digits (NilEmpty.string_of_uint d) 0 0 false with
    | None => Raised (invalid_literal (NilEmpty.string_of_uint d))
    | Some (n, count, rest) =>
        if (max_str_digits <? count)%Z then Raised (too_many_digits count)
        else if skip_int_space rest =? "" then Ok n
        else Raised (invalid_literal (NilEmpty.string_of_uint d))
    end.
Proof. destruct d; intros H; [contradiction | ..]; reflexivity. Qed.

Lemma str_of_Z_pos (p : positive) :
  str_of_Z (Zpos p) = NilEmpty.string_of_uint (Pos.to_uint p).
Proof.
  unfold str_of_Z. cbn [Z.to_int NilZero.string_of_int]. unfold NilZero.string_of_uint.
  pose proof (DecimalPos.Unsigned.to_uint_nonnil p).
  now destruct (Pos.to_uint p).
Qed.

Lemma str_of_Z_neg (p : positive) :
  str_of_Z (Zneg p) = String "-" (NilEmpty.string_of_uint (Pos.to_uint p)).
Proof.
  unfold str_of_Z. cbn [Z.to_int NilZero.string_of_int]. unfold NilZero.string_of_uint.
  pose proof (DecimalPos.Unsigned.to_uint_nonnil p).
  now destruct (Pos.to_uint p).
Qed.

(** [int(str(n))] is [n], unless [n] has more digits than [int] reads. *)
Lemma int_of_str_of_Z (n : Z) :
  int_of_str (str_of_Z n)
  = if (max_str_digits <? digits_of n)%Z then Raised (too_many_digits (digits_of n))
    else Ok n.
Proof.
  destruct n as [|p|p]; [reflexivity | |]; unfold digits_of;
    cbn [Z.abs]; rewrite str_of_Z_pos;
    pose proof (DecimalPos.Unsigned.to_uint_nonnil p) as Hnil.
  - rewrite (int_of_str_unsigned _ Hnil), (scan_digits_first _ Hnil), horner_to_uint.
    now destruct (max_str_digits <? _)%Z.
  - rewrite str_of_Z_neg. unfold int_of_str. cbn [skip_int_space].
    change (is_int_space "-") with false. cbv iota.
    rewrite (scan_digits_first _ Hnil), horner_to_uint.
    now destruct (max_str_digits <? _)%Z.
Qed.

Lemma str_of_Z_injective (a b : Z) : str_of_Z a = str_of_Z b -> a = b.
Proof.
  unfold str_of_Z. intros H.
  assert (Hnil : forall z, Z.to_int z <> Decimal.Pos Decimal.Nil
                           /\ Z.to_int z <> Decimal.Neg Decimal.Nil).
  { intros [|p|p]; cbn [Z.to_int]; split; try discriminate;
      intros [= E]; exact (DecimalPos.Unsigned.to_uint_nonnil p E). }
  apply (f_equal NilZero.int_of_string) in H.
  rewrite !NilZero.isi in H by apply Hnil.
  injection H as H. apply (f_equal Z.of_int) in H.
  now rewrite !DecimalZ.of_to in H.
Qed.

Section Limit.
Import Main.

Lemma parse_limit_text (GET : QueryDict) (n default : Z) :
  qd_get "limit" GET = Some (str_of_Z n) ->
  parse_limit GET default
  = if (max_str_digits <? digits_of n)%Z then default else n.
Proof.
  intros Hq. unfold parse_limit. rewrite Hq. cbn [py_int].
  rewrite int_of_str_of_Z. now destruct (max_str_digits <? digits_of n)%Z.
Qed.

(** X1.  The limit travels unchanged as far as [int] reads it: the
    decimal text of an integer of at most 4300 digits, zero and the
    negative ones included, is parsed back to that integer and handed to
    [list_messages] as it is, by the list handler and by the summary
    handler.  For the text of an integer with more digits [int] raises,
    and the handlers ask for their defaults, as they do for a request
    without a limit. *)
Theorem limit_round_trip (W : world) (GET : QueryDict) (n : Z) :
  qd_get "limit" GET = Some (str_of_Z n) ->
  ((digits_of n <= max_str_digits)%Z ->
     snd (list_view W GET) = [call_list_messages (Given (qd_get "q" GET)) n]
     /\ exists rest, snd (summary_view W GET) = call_list_messages Omitted n :: rest)
  /\ ((max_str_digits < digits_of n)%Z ->
        snd (list_view W GET) = [call_list_messages (Given (qd_get "q" GET)) 10]
        /\ exists rest,
             snd (summary_view W GET) = call_list_messages Omitted 5 :: rest)
  /\ (forall GET', qd_get "limit" GET' = None ->
        parse_limit GET' 10 = 10%Z /\ parse_limit GET' 5 = 5%Z).
Proof.
  intros Hq.
  pose proof (fun default => parse_limit_text GET n default Hq) as H.
  destruct (summary_view_trace W GET) as [rest [Ht _]].
  split; [| split].
  - intros Hd. apply Z.ltb_ge in Hd. rewrite Hd in H. split.
    + now rewrite list_view_trace, H.
    + exists rest. now rewrite Ht, H.
  - intros Hd. apply Z.ltb_lt in Hd. rewrite Hd in H. split.
    + now rewrite list_view_trace, H.
    + exists rest. now rewrite Ht, H.
  - intros GET' Hn. unfold parse_limit. now rewrite Hn.
Qed.

Lemma limit_round_trip_witness :
  let W := fixed_backend (Ok PNone) (Ok []) None in
  snd (list_view W [("limit", "-5")])
    = [call_list_messages (Given None) (-5)]
  /\ snd (list_view W [("q", "is:unread"); ("limit", "0")])
     = [call_list_messages (Given (Some "is:unread")) 0].
Proof.
  intros W. split.
  - refine (proj1 (proj1 (limit_round_trip W [("limit", "-5")] (-5) eq_refl) _)).
    vm_compute. discriminate.
  - refine (proj1 (proj1 (limit_round_trip W [("q", "is:unread"); ("limit", "0")] 0
                            eq_refl) _)).
    vm_compute. discriminate.
Defined.

End Limit.

(* ------------------------------------------------------------------ *)
(** ** Counting the entries of the list reply *)
(* ------------------------------------------------------------------ *)








Section EntryCount.
Import Streamlit_app.










End EntryCount.


(* ------------------------------------------------------------------ *)
(** ** summary_view with an API key *)
(* ------------------------------------------------------------------ *)

Section SummaryWithKey.
Import Main.

Lemma add_snippets_blocks (W : world) (snippets : list pyval) (i : Z) (prompt : string) :
  add_snippets W snippets i prompt
  = prompt ++ String.concat "" (snippet_blocks W i snippets).
Proof.
  revert i prompt. induction snippets as [|s rest IH]; intros i prompt.
  - cbn. now rewrite append_nil_r.
  - cbn [add_snippets snippet_blocks]. rewrite IH.
    change (prompt ++ "Email " ++ str_of_Z i ++ ":" ++ nl ++ py_str (repr W) s ++ nl ++ nl)
      with (prompt ++ snippet_block W i s).
    rewrite append_assoc. f_equal.
    destruct (snippet_blocks W (i + 1) rest); cbn; [now rewrite append_nil_r | reflexivity].
Qed.

Lemma snippet_blocks_length (W : world) (i : Z) (snippets : list pyval) :
  List.length (snippet_blocks W i snippets) = List.length snippets.
Proof.
  revert i. induction snippets as [|s rest IH]; intros i; cbn; [reflexivity |].
  now rewrite IH.
Qed.

Lemma snippet_blocks_nth (W : world) (snippets : list pyval) (i : Z) (k : nat) (s : pyval) :
  nth_error snippets k = Some s ->
  nth_error (snippet_blocks W i snippets) k = Some (snippet_block W (i + Z.of_nat k) s).
Proof.
  revert i k. induction snippets as [|s0 rest IH]; intros i k H.
  - destruct k; discriminate.
  - destruct k as [|k].
    + cbn in H. injection H as ->. cbn. now rewrite Z.add_0_r.
    + cbn [nth_error snippet_blocks] in *. rewrite (IH _ _ H). do 2 f_equal. lia.
Qed.

(** X2.  With an API key configured and the messages listed, the summary
    handler makes exactly two calls: [list_messages], then one completion
    call with the model of the settings ("gpt-3.5-turbo" by default), 400
    tokens at most, temperature 0.25, and a user prompt made of the fixed
    header followed by one block per message, in order, the k-th headed
    "Email k:".  The answer of the completion API becomes the summary
    beside the snippets; when the completion call raises, the response is
    the server error and the snippets are not returned. *)
Theorem summary_with_key (W : world) (GET : QueryDict) (msgs : list dict) :
  truthy (getattr (OPENAI_API_KEY W) PNone) = true ->
  list_messages W Omitted (parse_limit GET 5) = Ok msgs ->
  let snippets := map snippet_of msgs in
  let model := getattr (OPENAI_MODEL W) (PStr "gpt-3.5-turbo") in
  let blocks := snippet_blocks W 1 snippets in
  let messages :=
    [("system", "Summarize emails concisely and list action items.");
     ("user", prompt_header ++ String.concat "" blocks)] in
  let temperature := QArith_base.Qmake 1 4 in
  snd (summary_view W GET)
    = [call_list_messages Omitted (parse_limit GET 5);
       call_ChatCompletion_create model messages 400 temperature]
  /\ List.length blocks = List.length msgs
  /\ (forall k s, nth_error snippets k = Some s ->
        nth_error blocks k
        = Some ("Email " ++ str_of_Z (Z.of_nat k + 1) ++ ":" ++ nl
                ++ py_str (repr W) s ++ nl ++ nl))
  /\ (forall resp,
        ChatCompletion_create W model messages 400 temperature = Ok resp ->
        fst (summary_view W GET)
        = Ok (respond (PDict [("snippets", PList snippets);
                              ("summary", summary_text W resp)])))
  /\ (forall e,
        ChatCompletion_create W model messages 400 temperature = Raised e ->
        fst (summary_view W GET) = Ok (server_error e)).
Proof.
  intros Hkey Hl snippets model blocks messages temperature.
  assert (Hp : add_snippets W snippets 1 prompt_header
               = prompt_header ++ String.concat "" blocks)
    by apply add_snippets_blocks.
  unfold summary_view.
  cbn -[add_snippets prompt_header snippet_of summary_text getattr truthy].
  rewrite Hl.
  cbn -[add_snippets prompt_header snippet_of summary_text getattr truthy].
  rewrite Hkey.
  cbn -[add_snippets prompt_header snippet_of summary_text getattr truthy].
  fold snippets. rewrite Hp. fold model. fold temperature. fold messages.
  split; [| split; [| split; [| split]]].
  - destruct (ChatCompletion_create W model messages 400 temperature); reflexivity.
  - unfold blocks, snippets. rewrite snippet_blocks_length. apply length_map.
  - intros k s H. unfold blocks. rewrite (snippet_blocks_nth W snippets 1 k s H).
    replace (1 + Z.of_nat k)%Z with (Z.of_nat k + 1)%Z by lia. reflexivity.
  - intros resp ->. reflexivity.
  - intros e ->. reflexivity.
Qed.

Lemma summary_with_key_witness :
  let inbox := [[("body", PStr "Invoice attached")];
                [("snippet", PStr "Are we still on?")]] in
  let answer := PDict [("choices", PList [PDict [("message",
                  PDict [("role", PStr "assistant");
                         ("content", PStr " Two emails: an invoice and a question. ")])]])] in
  let W := keyed_backend (Ok inbox) (Ok answer) in
  fst (summary_view W [])
  = Ok {| data := PDict [("snippets", PList [PStr "Invoice attached";
                                             PStr "Are we still on?"]);
                         ("summary", PStr "Two emails: an invoice and a question.")];
          status := 200 |}.
Proof.
  intros inbox answer W.
  destruct (summary_with_key W [] inbox eq_refl eq_refl) as [_ [_ [_ [H _]]]].
  exact (H answer eq_refl).
Defined.

(** X3.  The summary read from a completion answer is always a string,
    so the chat client can append it to its reply: the trimmed content of
    the first choice when the answer has the usual shape, and otherwise
    (no "choices", no choice, no message, a content that is not text) the
    text of the whole answer. *)
Theorem summary_text_is_text (W : world) (resp : pyval) :
  (exists s, summary_text W resp = PStr s)
  /\ (forall reply, exists out,
        Streamlit_app.py_append reply (summary_text W resp) = Ok out)
  /\ (forall d first rest message content,
        resp = PDict d ->
        dict_lookup "choices" d = Some (PList (PDict first :: rest)) ->
        dict_lookup "message" first = Some (PDict message) ->
        dict_lookup "content" message = Some (PStr content) ->
        summary_text W resp = PStr (strip content))
  /\ (forall d, resp = PDict d ->
        dict_lookup "choices" d = None \/ dict_lookup "choices" d = Some (PList []) ->
        summary_text W resp = PStr (py_str (repr W) resp))
  /\ ((forall d, resp <> PDict d) ->
        summary_text W resp = PStr (py_str (repr W) resp)).
Proof.
  assert (Htext : exists s, summary_text W resp = PStr s).
  { unfold summary_text.
    destruct (_ <- py_getitem resp "choices" ;; _) as [text | e] eqn:E;
      [| now eexists].
    cbn in E.
    destruct (py_getitem resp "choices") as [c|]; [| discriminate].
    destruct (py_getitem0 c) as [f|]; [| discriminate].
    destruct (py_getitem f "message") as [m|]; [| discriminate].
    destruct (py_getitem m "content") as [x|]; [| discriminate].
    destruct x; try discriminate. cbn in E. injection E as <-. now eexists. }
  split; [exact Htext |]. split; [| split; [| split]].
  - intros reply. destruct Htext as [s ->]. now eexists.
  - intros d first rest message content -> Hc Hm Hx.
    unfold summary_text. cbn. rewrite Hc. cbn. rewrite Hm. cbn. now rewrite Hx.
  - intros d -> [Hc | Hc]; unfold summary_text; cbn; now rewrite Hc.
  - intros H. unfold summary_text.
    destruct resp; try reflexivity. exfalso. now apply (H d).
Qed.

End SummaryWithKey.

(* ------------------------------------------------------------------ *)
(** ** The fields of the send response, and the outcomes of list_view *)
(* ------------------------------------------------------------------ *)

Section SendResult.
Import Main.

(** X4.  The send response passes the mail client's answer on and adds
    nothing of its own: every field of a dict answer (its keys distinct)
    is in the response with its value, apart from "ok", which stays true
    whatever the answer says, and from "message_id" when the answer has an
    "id"; and every field of the response is "ok", "message_id" or a field
    of the answer.  An answer that is not a dict is passed as "result". *)
Theorem send_result_fields (sent : pyval) :
  (forall r, sent = PDict r -> NoDup (map fst r) ->
     forall k v, dict_lookup k r = Some v ->
       k <> "ok" -> (k = "message_id" -> dict_lookup "id" r = None) ->
       dict_lookup k (send_result sent) = Some v)
  /\ (forall r k, sent = PDict r -> dict_has k (send_result sent) = true ->
        k = "ok" \/ k = "message_id" \/ dict_has k r = true)
  /\ ((forall r, sent <> PDict r) ->
        send_result sent = [("ok", PBool true); ("result", sent)]).
Proof.
  split; [| split].
  - intros r -> Hnd k v Hk Hok Hmid. unfold send_result.
    set (result := match dict_lookup "id" r with
                   | Some v => dict_set "message_id" v [("ok", PBool true)]
                   | None => [("ok", PBool true)]
                   end).
    assert (Hkeep : negb (dict_has k result) = true).
    { subst result. rewrite send_result_base_keys.
      destruct (String.eqb_spec "ok" k); [congruence |].
      destruct (dict_lookup "id" r) eqn:Eid; [| reflexivity].
      destruct (String.eqb_spec "message_id" k) as [<- |]; [| reflexivity].
      discriminate (Hmid eq_refl). }
    apply dict_lookup_update_item.
    + now apply NoDup_keys_filter.
    + rewrite (dict_lookup_filter k (fun k => negb (dict_has k result)) r Hkeep).
      exact Hk.
  - intros r k -> H. unfold send_result in H.
    set (result := match dict_lookup "id" r with
                   | Some v => dict_set "message_id" v [("ok", PBool true)]
                   | None => [("ok", PBool true)]
                   end) in H.
    rewrite dict_has_update in H.
    rewrite (has_key_filter k (fun k => negb (dict_has k result))) in H.
    rewrite <- dict_has_has_key in H.
    destruct (dict_has k r); [now right; right |].
    rewrite andb_false_r, orb_false_r in H.
    subst result. rewrite send_result_base_keys in H.
    destruct (String.eqb_spec "ok" k); [now left |].
    destruct (dict_lookup "id" r); [| discriminate].
    destruct (String.eqb_spec "message_id" k); [now right; left | discriminate].
  - intros H. destruct sent; try reflexivity. exfalso. now apply (H d).
Qed.

Lemma send_result_fields_witness :
  let sent := PDict [("id", PStr "18c2"); ("ok", PBool false);
                     ("labelIds", PList [PStr "SENT"])] in
  dict_lookup "labelIds" (send_result sent) = Some (PList [PStr "SENT"])
  /\ dict_lookup "id" (send_result sent) = Some (PStr "18c2").
Proof.
  intros sent.
  destruct (send_result_fields sent) as [H _].
  assert (Hnd : NoDup (map fst [("id", PStr "18c2"); ("ok", PBool false);
                                ("labelIds", PList [PStr "SENT"])])).
  { cbn. repeat constructor; cbn; intuition discriminate. }
  split.
  - apply (H _ eq_refl Hnd); [reflexivity | discriminate | discriminate].
  - apply (H _ eq_refl Hnd); [reflexivity | discriminate | discriminate].
Defined.

End SendResult.

Section ListOutcomes.
Import Main.

Lemma simplify_all_fails (msgs : list dict) (acc : list pyval) (m : dict) (e : exn) :
  In m msgs -> simplified_message m = Raised e ->
  exists e', simplify_all msgs acc = Raised e'.
Proof.
  revert acc. induction msgs as [|m0 msgs IH]; intros acc Hin Hm; [contradiction |].
  cbn [simplify_all]. destruct (simplified_message m0) as [x | e0] eqn:E0.
  - cbn. destruct Hin as [-> | Hin]; [congruence |]. now apply IH.
  - cbn. now exists e0.
Qed.

(** X5.  The list handler answers all or nothing.  When [list_messages]
    returns messages whose bodies are text, the response is the list of
    their shapes, one per message and in the order of the mail client.
    When one message cannot be simplified, the response is the server
    error and no shape is returned, whatever the other messages are.  When
    [list_messages] raises, the response is the server error with the text
    of the exception. *)
Theorem list_view_outcomes (W : world) (GET : QueryDict) :
  let query := Given (qd_get "q" GET) in
  let limit := parse_limit GET 10 in
  (forall msgs,
     list_messages W query limit = Ok msgs ->
     Forall (fun m => body_text m <> None) msgs ->
     exists shapes,
       fst (list_view W GET) = Ok (respond (PList shapes))
       /\ List.length shapes = List.length msgs
       /\ forall k m, nth_error msgs k = Some m ->
            exists s, body_text m = Some s
                      /\ nth_error shapes k = Some (simplified_shape m s))
  /\ (forall msgs m e,
        list_messages W query limit = Ok msgs ->
        In m msgs -> simplified_message m = Raised e ->
        exists e', fst (list_view W GET) = Ok (server_error e'))
  /\ (forall e,
        list_messages W query limit = Raised e ->
        fst (list_view W GET) = Ok (server_error e)).
Proof.
  intros query limit. split; [| split].
  - intros msgs Hl Hb.
    exists (map (fun m => simplified_shape m
                   (match body_text m with Some s => s | None => "" end)) msgs).
    split; [now apply list_view_shapes |]. split; [apply length_map |].
    intros k m Hk. rewrite Forall_forall in Hb.
    assert (Hm : body_text m <> None) by (apply Hb; now apply (nth_error_In msgs k)).
    destruct (body_text m) as [s|] eqn:E; [| contradiction].
    exists s. split; [reflexivity |].
    rewrite nth_error_map, Hk. cbn. now rewrite E.
  - intros msgs m e Hl Hin Hm. unfold list_view. cbn. subst query limit.
    rewrite Hl. cbn.
    destruct (simplify_all_fails msgs [] m e Hin Hm) as [e' ->]. cbn. now exists e'.
  - intros e Hl. unfold list_view. cbn. subst query limit. now rewrite Hl.
Qed.

Lemma list_view_outcomes_witness :
  let good := [("id", PStr "1"); ("body", PStr "Hello")] in
  let bad := [("id", PStr "2"); ("body", PInt 42)] in
  (exists e,
     fst (list_view (fixed_backend (Ok PNone) (Ok [good; bad]) None) [])
     = Ok (server_error e))
  /\ (exists shapes,
        fst (list_view (fixed_backend (Ok PNone) (Ok [good; good]) None) [])
        = Ok (respond (PList shapes)) /\ List.length shapes = 2).
Proof.
  intros good bad. split.
  - destruct (list_view_outcomes (fixed_backend (Ok PNone) (Ok [good; bad]) None) [])
      as [_ [H _]].
    exact (H [good; bad] bad (not_subscriptable (PInt 42)) eq_refl
             (or_intror (or_introl eq_refl)) eq_refl).
  - destruct (list_view_outcomes (fixed_backend (Ok PNone) (Ok [good; good]) None) [])
      as [H _].
    destruct (H [good; good] eq_refl) as [shapes [E [L _]]].
    + repeat constructor; discriminate.
    + exists shapes. now split.
Defined.

End ListOutcomes.

(* ------------------------------------------------------------------ *)
(** ** The replies of the chat client *)
(* ------------------------------------------------------------------ *)

Section Replies.
Import Streamlit_app.

Lemma list_emails_fails (W : world) (limit : Z) (e : exn) :
  failure_of W (list_emails_request limit) = Some e ->
  list_emails W limit = (Ok (error_result e), [list_emails_request limit]).
Proof.
  intros H. apply injective_projections;
    [now apply list_emails_failure | apply list_emails_trace].
Qed.

Lemma summarize_emails_fails (W : world) (limit : Z) (e : exn) :
  failure_of W (summarize_emails_request limit) = Some e ->
  summarize_emails W limit = (Ok (error_result e), [summarize_emails_request limit]).
Proof.
  intros H. apply injective_projections;
    [now apply summarize_emails_failure | apply summarize_emails_trace].
Qed.

Lemma send_email_fails (W : world) (to subject body : string) (e : exn) :
  failure_of W (send_email_request to subject body) = Some e ->
  send_email W to subject body
  = (Ok (error_result e), [send_email_request to subject body]).
Proof.
  intros H. apply injective_projections;
    [now apply send_email_failure | apply send_email_trace].
Qed.

(** X6.  A failed exchange with the backend never breaks the chat: in
    each of the three branches the reply is one warning line that ends
    with the text of the exception, and the one request of the branch is
    the only call made. *)
Theorem reply_on_failure (W : world) (prompt : string) (e : exn) :
  (classify (normalize prompt) = LIST_EMAILS ->
   failure_of W (list_emails_request 3) = Some e ->
   reply_to W prompt
   = (Ok ("⚠️ Failed to fetch emails: " ++ exn_str e), [list_emails_request 3]))
  /\ (classify (normalize prompt) = SUMMARIZE ->
      failure_of W (summarize_emails_request 5) = Some e ->
      reply_to W prompt
      = (Ok ("⚠️ Failed to summarize emails: " ++ exn_str e),
         [summarize_emails_request 5]))
  /\ (forall recipient body,
        classify (normalize prompt) = SEND_EMAIL ->
        extract prompt = (recipient, body) ->
        failure_of W (send_email_request recipient (subject_of body) body) = Some e ->
        reply_to W prompt
        = (Ok ("⚠️ Failed to send email: " ++ exn_str e),
           [send_email_request recipient (subject_of body) body])).
Proof.
  split; [| split].
  - intros C F. unfold reply_to. rewrite C, (list_emails_fails W 3 e F). reflexivity.
  - intros C F. unfold reply_to. rewrite C, (summarize_emails_fails W 5 e F).
    reflexivity.
  - intros recipient body C E F. unfold reply_to. rewrite C, E.
    rewrite (send_email_fails W _ _ _ e F). reflexivity.
Qed.

Lemma reply_on_failure_witness :
  let W := fixed_network (Raised (Exn "ConnectionError" "Connection refused")) in
  reply_to W "list my emails"
    = (Ok "⚠️ Failed to fetch emails: Connection refused", [list_emails_request 3])
  /\ reply_to W "send an email to a@b.com saying Hi"
     = (Ok "⚠️ Failed to send email: Connection refused",
        [send_email_request "a@b.com" "Hi" "Hi"]).
Proof.
  intros W. split.
  - exact (proj1 (reply_on_failure W "list my emails"
                    (Exn "ConnectionError" "Connection refused")) eq_refl eq_refl).
  - exact (proj2 (proj2 (reply_on_failure W "send an email to a@b.com saying Hi"
                    (Exn "ConnectionError" "Connection refused")))
             "a@b.com" "Hi" eq_refl eq_refl eq_refl).
Defined.

(** X7.  The summarize branch appends the "summary" of the response as
    it is.  A response without an "error" whose "summary" is text gives
    the header followed by that text, and one without "summary" the header
    followed by the text of the whole response; but a response whose
    "summary" is null, which is what the backend answers while no API key
    is configured, makes the branch raise a TypeError: the chat turn
    ends without a reply, after its one request. *)
Theorem summary_reply_outcomes (W : world) (d : dict) :
  dict_has "error" d = false ->
  (forall s, dict_lookup "summary" d = Some (PStr s) ->
     summary_reply W (PDict d) = Ok ("📝 **Inbox Summary:**" ++ nl ++ nl ++ s))
  /\ (dict_lookup "summary" d = None ->
      summary_reply W (PDict d)
      = Ok ("📝 **Inbox Summary:**" ++ nl ++ nl ++ py_str (repr W) (PDict d)))
  /\ (dict_lookup "summary" d = Some PNone ->
      summary_reply W (PDict d) = Raised concat_none
      /\ forall prompt,
           classify (normalize prompt) = SUMMARIZE ->
           fst (summarize_emails W 5) = Ok (PDict d) ->
           reply_to W prompt = (Raised concat_none, [summarize_emails_request 5])).
Proof.
  intros Herr.
  assert (Hs : forall v, dict_lookup "summary" d = Some v ->
                 summary_reply W (PDict d)
                 = py_append ("📝 **Inbox Summary:**" ++ nl ++ nl) v).
  { intros v Hv. unfold summary_reply. cbn -[py_append append].
    rewrite Herr. cbn -[py_append append].
    unfold dict_get_default. now rewrite Hv. }
  split; [| split].
  - intros s Hv. rewrite (Hs _ Hv). cbn [py_append]. now rewrite !append_assoc.
  - intros Hv. unfold summary_reply. cbn -[py_append append].
    rewrite Herr. cbn -[py_append append].
    unfold dict_get_default. rewrite Hv. cbn [py_append]. now rewrite !append_assoc.
  - intros Hv. split; [rewrite (Hs _ Hv); reflexivity |].
    intros prompt C Hd. unfold reply_to. rewrite C.
    pose proof (summarize_emails_trace W 5) as Ht.
    destruct (summarize_emails W 5) as [r t]. cbn [fst snd] in Hd, Ht. subst r t.
    cbn -[summary_reply]. rewrite (Hs _ Hv). reflexivity.
Qed.

Lemma summary_reply_outcomes_witness :
  let no_key := PDict [("snippets", PList [PStr "Invoice attached"]);
                       ("summary", PNone);
                       ("warning", PStr "OPENAI_API_KEY not set in settings.")] in
  let W := fixed_network
             (Ok {| status_code := 200; http_error := ""; body_json := Ok no_key |}) in
  reply_to W "Summarize my recent emails"
  = (Raised concat_none, [summarize_emails_request 5]).
Proof.
  intros no_key W.
  destruct (summary_reply_outcomes W
              [("snippets", PList [PStr "Invoice attached"]); ("summary", PNone);
               ("warning", PStr "OPENAI_API_KEY not set in settings.")] eq_refl)
    as [_ [_ H]].
  exact (proj2 (H eq_refl) "Summarize my recent emails" eq_refl eq_refl).
Defined.

End Replies.

(* ------------------------------------------------------------------ *)
(** ** What the extractor can and cannot produce *)
(* ------------------------------------------------------------------ *)

Lemma append_length (a b : string) :
  String.length (a ++ b) = String.length a + String.length b.
Proof. induction a; simpl; congruence. Qed.

Lemma substring_refl (s : string) : substring s s.
Proof. exists "", "". simpl. now rewrite append_nil_r. Qed.

Lemma substring_trans (a b c : string) :
  substring a b -> substring b c -> substring a c.
Proof.
  intros [p1 [q1 ->]] [p2 [q2 ->]]. exists (p2 ++ p1), (q1 ++ q2).
  now rewrite !append_assoc.
Qed.

Lemma lstrip_suffix (s : string) : exists pre, s = pre ++ lstrip s.
Proof.
  induction s as [|c s [pre IH]]; [now exists "" |]. cbn.
  destruct (is_space c); [| now exists ""].
  exists (String c pre). cbn. now rewrite <- IH.
Qed.

Lemma rstrip_prefix (s : string) : exists post, s = rstrip s ++ post.
Proof.
  induction s as [|c s [post IH]]; [now exists "" |]. cbn.
  destruct (is_space c && (rstrip s =? "")); [now exists (String c s) |].
  exists post. cbn. now rewrite <- IH.
Qed.

Lemma strip_substring (s : string) : substring (strip s) s.
Proof.
  unfold strip. destruct (lstrip_suffix s) as [pre Hl].
  destruct (rstrip_prefix (lstrip s)) as [post Hr].
  exists pre, post. now rewrite <- Hr.
Qed.

Lemma strip_trimmed (s : string) : trimmed (strip s).
Proof. apply strip_idempotent. Qed.

(** The text before the leftmost separator holds no separator. *)
Lemma leftmost_clean (sep s pre post : string) :
  sep <> "" -> leftmost sep s pre post -> ~ substring sep pre.
Proof.
  intros Hsep [E H] [a [b Hpre]].
  specialize (H a (b ++ sep ++ post)).
  rewrite E, Hpre, !append_assoc in H. specialize (H eq_refl).
  rewrite !append_length in H.
  destruct sep; [contradiction | cbn in H; lia].
Qed.

(** Every piece of [split] is a part of the text and holds no separator. *)
Lemma split_pieces (sep : string) (n : nat) (s : string) :
  sep <> "" -> String.length s <= n ->
  forall p, In p (split sep s) -> ~ substring sep p /\ substring p s.
Proof.
  intros Hsep. revert s. induction n as [|n IH]; intros s Hlen p Hin.
  - destruct s; [| cbn in Hlen; lia]. cbn in Hin. destruct Hin as [<- | []].
    split; [| apply substring_refl].
    intros [a [b E]]. destruct a; destruct sep; try discriminate. contradiction.
  - destruct (contains sep s) eqn:C.
    + apply contains_spec in C. destruct (leftmost_exists _ _ C) as [pre [post L]].
      rewrite (split_leftmost sep s pre post Hsep L) in Hin.
      destruct L as [E Hmin]. destruct Hin as [<- | Hin].
      * split; [apply (leftmost_clean sep s pre post Hsep); now split |].
        exists "", (sep ++ post). exact E.
      * assert (Hpost : String.length post <= n).
        { rewrite E, !append_length in Hlen. destruct sep; [contradiction |].
          cbn in Hlen. lia. }
        destruct (IH post Hpost p Hin) as [Hc Hs]. split; [exact Hc |].
        apply (substring_trans p post s Hs). exists (pre ++ sep), "".
        now rewrite append_nil_r, append_assoc.
    + apply contains_false in C. rewrite (split_absent sep s C) in Hin.
      destruct Hin as [<- | []]. split; [exact C | apply substring_refl].
Qed.

Lemma subject_of_bounds (body : string) :
  1 <= String.length (Streamlit_app.subject_of body) <= 30.
Proof.
  unfold Streamlit_app.subject_of.
  destruct (slice_to_spec 30 body) as [rest [_ L]].
  destruct (slice_to 30 body) eqn:E; cbn [String.eqb]; [cbn; lia |].
  cbn [String.length] in *. lia.
Qed.

Section ExtractorShape.
Import Streamlit_app.

(** What was read from the prompt is trimmed text found between the
    separators. *)
Lemma parse_send_parts (prompt recipient body : string) :
  parse_send prompt = Ok (recipient, body) ->
  exists seg first,
    In seg (split "send an email to" prompt)
    /\ In first (split "saying" (strip seg))
    /\ recipient = strip first
    /\ (body = "Hello!"
        \/ exists second, In second (split "saying" (strip seg)) /\ body = strip second).
Proof.
  unfold parse_send.
  destruct (split "send an email to" prompt) as [|a [|seg tl]] eqn:E1;
    try discriminate.
  cbn -[split strip]. 
  destruct (split "saying" (strip seg)) as [|p0 [|p1 tl2]] eqn:E2;
    cbn -[split strip]; try discriminate;
    intros H; injection H as <- <-; exists seg, p0; rewrite E2.
  - split; [right; now left |]. split; [now left |]. split; [reflexivity | now left].
  - split; [right; now left |]. split; [now left |]. split; [reflexivity |].
    right. exists p1. split; [right; now left | reflexivity].
Qed.

(** X8.  Whatever the prompt, the values posted by the send branch are
    clean: the recipient and the body have no white space at either end,
    and the subject has between 1 and 30 characters. *)
Theorem extract_trimmed (prompt : string) :
  trimmed (fst (extract prompt))
  /\ trimmed (snd (extract prompt))
  /\ 1 <= String.length (subject_of (snd (extract prompt))) <= 30
  /\ forall W, classify (normalize prompt) = SEND_EMAIL ->
       exists recipient subject body,
         snd (reply_to W prompt) = [send_email_request recipient subject body]
         /\ trimmed recipient /\ trimmed body
         /\ 1 <= String.length subject <= 30.
Proof.
  assert (H : trimmed (fst (extract prompt)) /\ trimmed (snd (extract prompt))).
  { unfold extract. destruct (parse_send prompt) as [[recipient body] | e] eqn:E.
    - destruct (parse_send_parts _ _ _ E) as [seg [first [_ [_ [-> Hb]]]]].
      split; [apply strip_trimmed |].
      destruct Hb as [-> | [second [_ ->]]]; [reflexivity | apply strip_trimmed].
    - split; reflexivity. }
  destruct H as [Hr Hb].
  split; [exact Hr |]. split; [exact Hb |]. split; [apply subject_of_bounds |].
  intros W C. rewrite reply_to_calls, C.
  exists (fst (extract prompt)), (subject_of (snd (extract prompt))),
         (snd (extract prompt)).
  split; [reflexivity |]. split; [exact Hr |]. split; [exact Hb |].
  apply subject_of_bounds.
Qed.

(** X9.  The separators never reach the mail: the recipient and the body
    read from a prompt contain neither "saying" nor "send an email to",
    so a body is cut at the next "saying" and cannot quote either
    phrase. *)
Theorem extract_never_holds_separator (prompt : string) :
  let recipient := fst (extract prompt) in
  let body := snd (extract prompt) in
  ~ substring "saying" recipient /\ ~ substring "saying" body
  /\ ~ substring "send an email to" recipient
  /\ ~ substring "send an email to" body.
Proof.
  cbv zeta. unfold extract.
  destruct (parse_send prompt) as [[recipient body] | e] eqn:E;
    [| cbn [fst snd]; repeat split; apply contains_false; reflexivity].
  cbn [fst snd].
  destruct (parse_send_parts _ _ _ E) as [seg [first [Hseg [Hfirst [-> Hb]]]]].
  destruct (split_pieces "send an email to" _ prompt ltac:(discriminate)
              (Nat.le_refl _) seg Hseg) as [Hseg_clean _].
  assert (Hpiece : forall p, In p (split "saying" (strip seg)) ->
            ~ substring "saying" (strip p)
            /\ ~ substring "send an email to" (strip p)).
  { intros p Hp.
    destruct (split_pieces "saying" _ (strip seg) ltac:(discriminate)
                (Nat.le_refl _) p Hp) as [Hclean Hsub].
    split.
    - intros H. apply Hclean. exact (substring_trans _ _ _ H (strip_substring p)).
    - intros H. apply Hseg_clean.
      apply (substring_trans _ (strip p) _ H).
      apply (substring_trans _ p _ (strip_substring p)).
      exact (substring_trans _ _ _ Hsub (strip_substring seg)). }
  destruct (Hpiece first Hfirst) as [H1 H2].
  destruct Hb as [-> | [second [Hsecond ->]]].
  - repeat split; try assumption; apply contains_false; reflexivity.
  - destruct (Hpiece second Hsecond) as [H3 H4]. repeat split; assumption.
Qed.

End ExtractorShape.

(* ------------------------------------------------------------------ *)
(** ** organize_labels *)
(* ------------------------------------------------------------------ *)

Section OrganizeLabels.
Import Main_labels.

Lemma key_eq_str (k : pyval) (n : string) : key_eq k (PStr n) = eq_str k n.
Proof. now destruct k. Qed.

Lemma key_eq_same_str (k0 k : pyval) (n : string) :
  key_eq k0 k = true -> eq_str k0 n = eq_str k n.
Proof.
  destruct k0, k; cbn; try discriminate; try reflexivity.
  intros H. apply String.eqb_eq in H. now subst.
Qed.

Lemma keyed_lookup_set_str (n : string) (k v : pyval) (m : keyed) :
  keyed_lookup (PStr n) (keyed_set k v m)
  = if eq_str k n then Some v else keyed_lookup (PStr n) m.
Proof.
  induction m as [|[k0 v0] m IH]; cbn [keyed_set keyed_lookup].
  - now rewrite key_eq_str.
  - destruct (key_eq k0 k) eqn:E; cbn [keyed_lookup]; rewrite key_eq_str.
    + rewrite (key_eq_same_str k0 k n E). now destruct (eq_str k n).
    + rewrite IH. destruct (eq_str k0 n) eqn:E0; [| reflexivity].
      destruct (eq_str k n) eqn:E1; [| reflexivity].
      destruct k0, k; try discriminate. cbn in E, E0, E1.
      apply String.eqb_eq in E0, E1. subst.
      now rewrite String.eqb_refl in E.
Qed.

Lemma label_ok_fields (lab : dict) :
  label_ok lab = true ->
  py_getitem (PDict lab) "name" = Ok (dict_get "name" lab)
  /\ py_getitem (PDict lab) "id" = Ok (dict_get "id" lab)
  /\ hashable (dict_get "name" lab) = true.
Proof.
  unfold label_ok, dict_has, dict_get, dict_get_default. cbn [py_getitem].
  destruct (dict_lookup "name" lab); [| discriminate].
  destruct (dict_lookup "id" lab); [| discriminate]. cbn.
  intros H. now repeat split.
Qed.

(** The map built from well-formed labels gives each name its last id. *)
Lemma build_label_map_last (labels : list dict) (acc : keyed) :
  forallb label_ok labels = true ->
  exists m, build_label_map labels acc = Ok m
    /\ forall n, keyed_lookup (PStr n) m
                 = match last_id n labels with
                   | Some id => Some id
                   | None => keyed_lookup (PStr n) acc
                   end.
Proof.
  revert acc. induction labels as [|lab rest IH]; intros acc H.
  - exists acc. now split.
  - cbn [forallb] in H. apply andb_true_iff in H. destruct H as [Hlab Hrest].
    destruct (label_ok_fields lab Hlab) as [Hn [Hi Hh]].
    cbn [build_label_map]. rewrite Hn.
    cbn -[py_getitem build_label_map hashable keyed_set]. rewrite Hi.
    cbn -[py_getitem build_label_map hashable keyed_set]. rewrite Hh.
    destruct (IH (keyed_set (dict_get "name" lab) (dict_get "id" lab) acc) Hrest)
      as [m [Hm Hl]].
    exists m. split; [exact Hm |]. intros n. rewrite Hl. cbn [last_id].
    destruct (last_id n rest); [reflexivity |]. rewrite keyed_lookup_set_str.
    now destruct (eq_str (dict_get "name" lab) n).
Qed.

(** The calls up to the choice between an existing and a new label. *)
Lemma organize_labels_resolved (W : world) (body : dict) (name : string)
    (labels : list dict) :
  truthy (dict_get "message_id" body) = true ->
  dict_get "label" body = PStr name -> name <> "" ->
  list_labels W = Ok labels ->
  forallb label_ok labels = true ->
  organize_labels W body
  = match last_id name labels with
    | Some id =>
        let modify := call_modify_message_labels (dict_get "message_id" body) [id] in
        match modify_message_labels W (dict_get "message_id" body) [id] with
        | Ok res => (Ok (Main.respond (PDict [("ok", PBool true); ("result", res)])),
                     [call_list_labels; modify])
        | Raised e => (Ok (Main.server_error e), [call_list_labels; modify])
        end
    | None =>
        let create := call_create_label (PStr name) in
        match create_label W (PStr name) with
        | Ok created =>
            match get_id created with
            | Ok id =>
                let modify :=
                  call_modify_message_labels (dict_get "message_id" body) [id] in
                match modify_message_labels W (dict_get "message_id" body) [id] with
                | Ok res =>
                    (Ok (Main.respond (PDict [("ok", PBool true); ("result", res)])),
                     [call_list_labels; create; modify])
                | Raised e =>
                    (Ok (Main.server_error e), [call_list_labels; create; modify])
                end
            | Raised e => (Ok (Main.server_error e), [call_list_labels; create])
            end
        | Raised e => (Ok (Main.server_error e), [call_list_labels; create])
        end
    end.
Proof.
  intros Hid Hlabel Hname Hl Hok. unfold organize_labels.
  rewrite Hid, Hlabel. apply String.eqb_neq in Hname.
  cbn [truthy negb orb]. rewrite Hname. cbn [negb orb].
  destruct (build_label_map_last labels [] Hok) as [m [Hm Hlook]].
  specialize (Hlook name). cbn [keyed_lookup] in Hlook.
  cbn -[build_label_map keyed_has keyed_getitem get_id]. rewrite Hl.
  cbn -[build_label_map keyed_has keyed_getitem get_id]. rewrite Hm.
  cbn -[keyed_getitem get_id]. unfold keyed_getitem. cbn [hashable].
  destruct (last_id name labels) as [id|]; rewrite Hlook;
    cbn -[get_id].
  - destruct (modify_message_labels W _ _); reflexivity.
  - destruct (create_label W (PStr name)) as [created|e]; cbn -[get_id];
      [| reflexivity].
    destruct (get_id created) as [id|e]; cbn; [| reflexivity].
    destruct (modify_message_labels W _ _); reflexivity.
Qed.

(** X10.  A label that exists is reused: with a message id, the name of
    a label and a well-formed label list (each label has a name and an
    id), the handler lists the labels and adds to the message the id of
    the last label of that name; it never calls [create_label]. *)
Theorem organize_existing_label (W : world) (body : dict) (name : string)
    (labels : list dict) (id : pyval) :
  truthy (dict_get "message_id" body) = true ->
  dict_get "label" body = PStr name -> name <> "" ->
  list_labels W = Ok labels ->
  forallb label_ok labels = true ->
  last_id name labels = Some id ->
  snd (organize_labels W body)
    = [call_list_labels;
       call_modify_message_labels (dict_get "message_id" body) [id]]
  /\ (forall res,
        modify_message_labels W (dict_get "message_id" body) [id] = Ok res ->
        fst (organize_labels W body)
        = Ok (Main.respond (PDict [("ok", PBool true); ("result", res)]))).
Proof.
  intros Hid Hlabel Hname Hl Hok Hlast.
  rewrite (organize_labels_resolved W body name labels Hid Hlabel Hname Hl Hok), Hlast.
  cbv zeta. split.
  - destruct (modify_message_labels W _ _); reflexivity.
  - intros res ->. reflexivity.
Qed.

Lemma organize_existing_label_witness :
  let W := fixed_mailbox (Ok two_labels) (Ok PNone) in
  let body := [("message_id", PStr "18c2"); ("label", PStr "Invoices")] in
  organize_labels W body
  = (Ok (Main.respond (PDict [("ok", PBool true);
                              ("result", PDict [("id", PStr "18c2")])])),
     [call_list_labels; call_modify_message_labels (PStr "18c2") [PStr "Label_7"]]).
Proof.
  intros W body.
  destruct (organize_existing_label W body "Invoices" two_labels (PStr "Label_7")
              eq_refl eq_refl ltac:(discriminate) eq_refl eq_refl eq_refl)
    as [Ht Hr].
  apply injective_projections; [exact (Hr _ eq_refl) | exact Ht].
Defined.

(** X11.  A label that does not exist is created first: the handler
    lists the labels, creates the label and then adds to the message the
    "id" of what [create_label] returned (null when it has none).  When
    [create_label] raises, or returns something that is not a dict, the
    response is the server error and the message is not modified. *)
Theorem organize_new_label (W : world) (body : dict) (name : string)
    (labels : list dict) :
  truthy (dict_get "message_id" body) = true ->
  dict_get "label" body = PStr name -> name <> "" ->
  list_labels W = Ok labels ->
  forallb label_ok labels = true ->
  last_id name labels = None ->
  (forall created,
     create_label W (PStr name) = Ok (PDict created) ->
     snd (organize_labels W body)
     = [call_list_labels; call_create_label (PStr name);
        call_modify_message_labels (dict_get "message_id" body)
                                   [dict_get "id" created]])
  /\ (forall e,
        create_label W (PStr name) = Raised e ->
        organize_labels W body
        = (Ok (Main.server_error e),
           [call_list_labels; call_create_label (PStr name)]))
  /\ (forall created,
        create_label W (PStr name) = Ok created ->
        (forall d, created <> PDict d) ->
        organize_labels W body
        = (Ok (Main.server_error (no_attribute created "get")),
           [call_list_labels; call_create_label (PStr name)])).
Proof.
  intros Hid Hlabel Hname Hl Hok Hlast.
  rewrite (organize_labels_resolved W body name labels Hid Hlabel Hname Hl Hok), Hlast.
  cbv zeta. split; [| split].
  - intros created ->. cbn [get_id].
    destruct (modify_message_labels W _ _); reflexivity.
  - intros e ->. reflexivity.
  - intros created -> Hnd.
    destruct created; try reflexivity. exfalso. now apply (Hnd d).
Qed.

Lemma organize_new_label_witness :
  let body := [("message_id", PStr "18c2"); ("label", PStr "Travel")] in
  snd (organize_labels
         (fixed_mailbox (Ok two_labels)
                        (Ok (PDict [("id", PStr "Label_8"); ("name", PStr "Travel")])))
         body)
    = [call_list_labels; call_create_label (PStr "Travel");
       call_modify_message_labels (PStr "18c2") [PStr "Label_8"]]
  /\ organize_labels
       (fixed_mailbox (Ok two_labels) (Raised (Exn "HttpError" "Label name exists")))
       body
     = (Ok (Main.server_error (Exn "HttpError" "Label name exists")),
        [call_list_labels; call_create_label (PStr "Travel")]).
Proof.
  intros body. split.
  - exact (proj1 (organize_new_label
                    (fixed_mailbox (Ok two_labels)
                       (Ok (PDict [("id", PStr "Label_8"); ("name", PStr "Travel")])))
                    body "Travel" two_labels
                    eq_refl eq_refl ltac:(discriminate) eq_refl eq_refl eq_refl)
             _ eq_refl).
  - exact (proj1 (proj2 (organize_new_label
                    (fixed_mailbox (Ok two_labels)
                       (Raised (Exn "HttpError" "Label name exists")))
                    body "Travel" two_labels
                    eq_refl eq_refl ltac:(discriminate) eq_refl eq_refl eq_refl))
             _ eq_refl).
Defined.

Lemma build_label_map_fails (labels : list dict) (acc : keyed) :
  forallb label_ok labels = false -> exists e, build_label_map labels acc = Raised e.
Proof.
  revert acc. induction labels as [|lab rest IH]; intros acc H; [discriminate |].
  cbn [forallb] in H. cbn [build_label_map].
  destruct (label_ok lab) eqn:Hlab.
  - destruct (label_ok_fields lab Hlab) as [Hn [Hi Hh]].
    rewrite Hn. cbn -[py_getitem build_label_map hashable keyed_set]. rewrite Hi.
    cbn -[py_getitem build_label_map hashable keyed_set]. rewrite Hh. now apply IH.
  - unfold label_ok, dict_has, dict_get, dict_get_default in Hlab. cbn [py_getitem].
    destruct (dict_lookup "name" lab) as [n|]; [| now eexists]. cbn.
    destruct (dict_lookup "id" lab) as [i|]; [| now eexists]. cbn.
    cbn in Hlab. rewrite Hlab. now eexists.
Qed.

(** X12.  Nothing is created or modified before the label is resolved:
    a request without a message id or without a label is answered with
    status 400 and no call; when [list_labels] raises, or returns a label
    without a name or an id (or with a name that cannot be the key of a
    dict), the response is the server error and [list_labels] is the only
    call made. *)
Theorem organize_labels_stops_early (W : world) (body : dict) :
  (truthy (dict_get "message_id" body) = false
   \/ truthy (dict_get "label" body) = false ->
   organize_labels W body
   = (Ok (Main.client_error "message_id and label required"), []))
  /\ (truthy (dict_get "message_id" body) = true ->
      truthy (dict_get "label" body) = true ->
      (forall e, list_labels W = Raised e ->
         organize_labels W body = (Ok (Main.server_error e), [call_list_labels]))
      /\ (forall labels, list_labels W = Ok labels ->
            forallb label_ok labels = false ->
            exists e, organize_labels W body
                      = (Ok (Main.server_error e), [call_list_labels]))).
Proof.
  split.
  - intros H. unfold organize_labels.
    destruct H as [H | H]; rewrite H; [reflexivity |].
    now rewrite orb_true_r.
  - intros Hid Hlabel. unfold organize_labels. rewrite Hid, Hlabel. cbn [negb orb].
    split.
    + intros e He. cbn -[build_label_map]. now rewrite He.
    + intros labels Hl Hbad. cbn -[build_label_map]. rewrite Hl.
      cbn -[build_label_map].
      destruct (build_label_map_fails labels [] Hbad) as [e ->]. cbn. now exists e.
Qed.

Lemma organize_labels_stops_early_witness :
  organize_labels (fixed_mailbox (Ok two_labels) (Ok PNone)) [("label", PStr "Travel")]
    = (Ok (Main.client_error "message_id and label required"), [])
  /\ organize_labels
       (fixed_mailbox (Raised (Exn "RefreshError" "Token has expired")) (Ok PNone))
       [("message_id", PStr "18c2"); ("label", PStr "Travel")]
     = (Ok (Main.server_error (Exn "RefreshError" "Token has expired")),
        [call_list_labels]).
Proof.
  split.
  - apply (organize_labels_stops_early _ [("label", PStr "Travel")]). now left.
  - exact (proj1 (proj2 (organize_labels_stops_early
              (fixed_mailbox (Raised (Exn "RefreshError" "Token has expired")) (Ok PNone))
              [("message_id", PStr "18c2"); ("label", PStr "Travel")])
              eq_refl eq_refl) _ eq_refl).
Defined.

End OrganizeLabels.


(* ------------------------------------------------------------------ *)
(** ** The chat threads of a session *)
(* ------------------------------------------------------------------ *)

Section Sessions.
Import Streamlit_app.
Import Session.

Lemma lookup_store_same (name : string) (t : thread) (c : list (string * thread)) :
  lookup name (store name t c) = Some t.
Proof.
  induction c as [|[k v] c IH]; cbn [store lookup].
  - now rewrite String.eqb_refl.
  - destruct (k =? name) eqn:E; cbn [lookup]; rewrite E; [reflexivity | exact IH].
Qed.

Lemma lookup_store_other (name name' : string) (t : thread)
    (c : list (string * thread)) :
  name' <> name -> lookup name' (store name t c) = lookup name' c.
Proof.
  intros H. induction c as [|[k v] c IH]; cbn [store lookup].
  - destruct (name =? name') eqn:E; [| reflexivity].
    apply String.eqb_eq in E. congruence.
  - destruct (k =? name) eqn:E; cbn [lookup]; [| now rewrite IH].
    apply String.eqb_eq in E. subst k.
    destruct (name =? name') eqn:E'; [| reflexivity].
    apply String.eqb_eq in E'. congruence.
Qed.

Lemma lookup_listed (name : string) (c : list (string * thread)) (t : thread) :
  lookup name c = Some t -> In name (map fst c) /\ In (name, t) c.
Proof.
  induction c as [|[k v] c IH]; cbn [lookup map fst]; [discriminate |].
  destruct (k =? name) eqn:E.
  - apply String.eqb_eq in E. subst k. intros [= ->]. split; now left.
  - intros H. destruct (IH H). split; now right.
Qed.

Lemma listed_lookup (name : string) (c : list (string * thread)) :
  In name (map fst c) -> exists t, lookup name c = Some t.
Proof.
  induction c as [|[k v] c IH]; cbn [lookup map fst]; [intros [] |].
  intros [-> | H].
  - rewrite String.eqb_refl. now exists v.
  - destruct (k =? name); [now exists v | now apply IH].
Qed.

Lemma store_names_listed (name : string) (t : thread) (c : list (string * thread)) :
  In name (map fst c) -> map fst (store name t c) = map fst c.
Proof.
  induction c as [|[k v] c IH]; cbn [store map fst]; [intros [] |].
  intros H. destruct (k =? name) eqn:E; cbn [map fst]; [reflexivity |].
  f_equal. apply IH. destruct H as [-> | H]; [| exact H].
  now rewrite String.eqb_refl in E.
Qed.

Lemma store_unlisted (name : string) (t : thread) (c : list (string * thread)) :
  ~ In name (map fst c) -> store name t c = (c ++ [(name, t)])%list.
Proof.
  induction c as [|[k v] c IH]; cbn [store map fst app]; [reflexivity |].
  intros H. destruct (k =? name) eqn:E.
  - apply String.eqb_eq in E. exfalso. apply H. now left.
  - f_equal. apply IH. intros H'. apply H. now right.
Qed.

Lemma store_Forall (P : thread -> Prop) (name : string) (t : thread)
    (c : list (string * thread)) :
  Forall (fun kv => P (snd kv)) c -> P t ->
  Forall (fun kv => P (snd kv)) (store name t c).
Proof.
  intros H Ht. induction H as [|[k v] c Hk Hc IH]; cbn [store].
  - now constructor.
  - destruct (k =? name); constructor; assumption.
Qed.

Lemma index_of_listed (name : string) (names : list string) :
  In name names ->
  exists i, index_of name names = Some i /\ (i < List.length names)%nat.
Proof.
  induction names as [|k names IH]; cbn [index_of In List.length]; [intros [] |].
  intros H. destruct (k =? name) eqn:E.
  - exists 0%nat. split; [reflexivity | lia].
  - destruct H as [-> | H]; [now rewrite String.eqb_refl in E |].
    destruct (IH H) as [i [-> Hi]]. exists (S i). split; [reflexivity | lia].
Qed.

Lemma numbered_snoc (a : Z) (n : nat) :
  numbered a (S n) = (numbered a n ++ [("Chat " ++ str_of_Z (a + Z.of_nat n))%string])%list.
Proof.
  revert a. induction n as [|n IH]; intros a.
  - cbn [numbered app]. now rewrite Z.add_0_r.
  - change (numbered a (S (S n)))
      with (("Chat " ++ str_of_Z a) :: numbered (a + 1) (S n)).
    rewrite IH. replace (a + Z.of_nat (S n))%Z with (a + 1 + Z.of_nat n)%Z by lia.
    reflexivity.
Qed.

Lemma numbered_bounds (a : Z) (n : nat) (k : Z) :
  In ("Chat " ++ str_of_Z k) (numbered a n) -> (a <= k < a + Z.of_nat n)%Z.
Proof.
  revert a. induction n as [|n IH]; intros a; cbn [numbered In]; [intros [] |].
  intros [H | H].
  - cbn [append] in H. injection H as H. apply str_of_Z_injective in H. lia.
  - apply IH in H. lia.
Qed.

Lemma opens_app (t : thread) (m : message) :
  opens_with_assistant t = true -> opens_with_assistant (t ++ [m])%list = true.
Proof. now destruct t. Qed.

Lemma well_formed_initial : well_formed initial.
Proof.
  split; [reflexivity | split; [now left |]].
  constructor; [reflexivity | constructor].
Qed.

Lemma names_length (s s' : session_state) :
  chat_names s' = chat_names s ->
  List.length (chats s') = List.length (chats s).
Proof.
  unfold chat_names. intros H.
  now rewrite <- (length_map fst (chats s')), H, length_map.
Qed.

(** Replacing a listed thread by one that opens with the assistant. *)
Lemma well_formed_store (s : session_state) (name current : string) (t : thread) :
  well_formed s -> In name (chat_names s) -> In current (chat_names s) ->
  opens_with_assistant t = true ->
  well_formed {| chats := store name t (chats s); current_chat := current |}.
Proof.
  intros [Hn [Hc Ho]] Hin Hcur Ht.
  assert (N : chat_names {| chats := store name t (chats s); current_chat := current |}
              = chat_names s) by (now apply store_names_listed).
  split; [| split].
  - rewrite N, (names_length _ _ N). exact Hn.
  - rewrite N. exact Hcur.
  - cbn [chats]. now apply (store_Forall (fun t => opens_with_assistant t = true)).
Qed.

Lemma well_formed_append (m : message) (s s' : session_state) :
  well_formed s -> append_message m s = Ok s' -> well_formed s'.
Proof.
  intros H. unfold append_message, current_messages.
  destruct (lookup (current_chat s) (chats s)) as [t|] eqn:E; [| discriminate].
  cbn. intros [= <-]. destruct (lookup_listed _ _ _ E) as [Hin Hpair].
  apply well_formed_store; try assumption.
  apply opens_app. destruct H as [_ [_ Ho]].
  rewrite Forall_forall in Ho. exact (Ho _ Hpair).
Qed.

Lemma new_chat_unlisted (s : session_state) :
  well_formed s ->
  ~ In ("Chat " ++ str_of_Z (Z.of_nat (List.length (chats s)) + 1)) (chat_names s).
Proof.
  intros [Hn _] H. rewrite Hn in H. apply numbered_bounds in H. lia.
Qed.

Lemma new_chat_chats (s : session_state) :
  well_formed s ->
  chats (new_chat s)
  = (chats s
     ++ [(("Chat " ++ str_of_Z (Z.of_nat (List.length (chats s)) + 1))%string,
          [assistant "New chat started. Hi 👋, how can I help you?"])])%list.
Proof.
  intros H. unfold new_chat. cbn [chats].
  apply store_unlisted. now apply new_chat_unlisted.
Qed.

Lemma well_formed_new_chat (s : session_state) :
  well_formed s -> well_formed (new_chat s).
Proof.
  intros H. pose proof (new_chat_chats s H) as C. destruct H as [Hn [Hc Ho]].
  unfold well_formed, chat_names. rewrite C. split; [| split].
  - rewrite map_app, length_app. cbn [map fst List.length].
    replace (List.length (chats s) + 1)%nat with (S (List.length (chats s))) by lia.
    rewrite numbered_snoc. unfold chat_names in Hn. rewrite <- Hn.
    do 4 f_equal. lia.
  - rewrite map_app. apply in_or_app. right. now left.
  - apply Forall_app. split; [exact Ho |]. constructor; [reflexivity | constructor].
Qed.

Lemma choose_listed (w : widgets) (s : session_state) :
  In (current_chat s) (chat_names s) -> honest w ->
  exists i,
    index_of (current_chat s) (chat_names s) = Some i
    /\ choose w s = Ok {| chats := chats s;
                          current_chat := radio w (chat_names s) i |}
    /\ In (radio w (chat_names s) i) (chat_names s).
Proof.
  intros Hc Hw. destruct (index_of_listed _ _ Hc) as [i [Hi Hlt]].
  exists i. split; [exact Hi | split].
  - unfold choose. fold (chat_names s). now rewrite Hi.
  - now apply Hw.
Qed.

Lemma well_formed_choice (s : session_state) (name : string) :
  well_formed s -> In name (chat_names s) ->
  well_formed {| chats := chats s; current_chat := name |}.
Proof. intros [Hn [_ Ho]] H. now split; [| split]. Qed.

Lemma well_formed_clear_chat (s : session_state) :
  well_formed s -> well_formed (clear_chat s).
Proof.
  intros H. unfold clear_chat.
  apply well_formed_store; [exact H | apply H | apply H | reflexivity].
Qed.

Lemma well_formed_current (s : session_state) :
  well_formed s ->
  exists msgs, current_messages s = Ok msgs /\ opens_with_assistant msgs = true.
Proof.
  intros [_ [Hc Ho]]. destruct (listed_lookup _ _ Hc) as [t E].
  exists t. unfold current_messages. rewrite E. split; [reflexivity |].
  rewrite Forall_forall in Ho. exact (Ho _ (proj2 (lookup_listed _ _ _ E))).
Qed.

(** One run of the script keeps the session well formed. *)
Lemma script_well_formed (W : world) (w : widgets) (s : session_state) :
  well_formed s -> honest w -> well_formed (state (script W w (Some s))).
Proof.
  intros H Hw. unfold script. cbn [init].
  destruct (current_messages s) as [msgs|e]; [| exact H].
  destruct (submitted w) as [prompt|].
  - destruct (append_message (user prompt) s) as [s1|e] eqn:E1; [| exact H].
    pose proof (well_formed_append _ _ _ H E1) as H1.
    destruct (reply_to W prompt) as [[reply|e] sent]; [| exact H1].
    destruct (append_message (assistant reply) s1) as [s2|e] eqn:E2; [| exact H1].
    exact (well_formed_append _ _ _ H1 E2).
  - destruct (new_chat_button w); [now apply well_formed_new_chat |].
    destruct (choose_listed w s (proj1 (proj2 H)) Hw) as [i [_ [-> Hin]]].
    pose proof (well_formed_choice s _ H Hin) as H1.
    destruct (clear_chat_button w); [now apply well_formed_clear_chat |].
    destruct (list_emails W 5) as [[data|e] sent]; [| exact H1].
    destruct (show_inbox W data) as [items failure]. exact H1.
Qed.

Lemma reachable_well_formed (s : session_state) : reachable s -> well_formed s.
Proof.
  induction 1 as [W w Hw | W w s _ IH Hw].
  - exact (script_well_formed W w initial well_formed_initial Hw).
  - exact (script_well_formed W w s IH Hw).
Qed.

Lemma honest_default (new_chat clear_chat : bool) (input : option string) :
  honest {| chat_input := input; new_chat_button := new_chat;
            radio := fun names i => nth i names "";
            clear_chat_button := clear_chat |}.
Proof. intros names i H. cbn [radio]. now apply nth_In. Qed.

(** X13.  In every state that a session can reach, whatever the user
    typed or pressed and whatever the backend answered, the threads are
    named "Chat 1" to "Chat n" in the order of their creation, the thread
    on display is one of them, so that [current_messages] returns it, and
    it opens with a message of the assistant. *)
Theorem session_always_well_formed (s : session_state) :
  reachable s ->
  chat_names s = numbered 1 (List.length (chats s))
  /\ (1 <= List.length (chats s))%nat
  /\ In (current_chat s) (chat_names s)
  /\ exists first rest,
       current_messages s = Ok (first :: rest) /\ role first = "assistant".
Proof.
  intros R. pose proof (reachable_well_formed s R) as H.
  destruct (well_formed_current s H) as [msgs [E O]].
  destruct H as [Hn [Hc _]]. split; [exact Hn | split; [| split; [exact Hc |]]].
  - unfold chat_names in Hc. destruct (chats s); [destruct Hc | cbn; lia].
  - destruct msgs as [|first rest]; [discriminate |].
    exists first, rest. split; [exact E |]. now apply String.eqb_eq.
Qed.

Lemma session_always_well_formed_witness :
  let W := fixed_network (Raised (Exn "ConnectionError" "Connection refused")) in
  let s := state (script W (pressed true false)
                    (Some (state (script W (typed "help") None)))) in
  chat_names s = ["Chat 1"; "Chat 2"]
  /\ current_chat s = "Chat 2"
  /\ In (current_chat s) (chat_names s).
Proof.
  intros W s.
  assert (R : reachable s).
  { apply next_run; [apply first_run |]; apply honest_default. }
  destruct (session_always_well_formed s R) as [Hn [_ [Hc _]]].
  split; [exact Hn | split; [reflexivity | exact Hc]].
Defined.

Lemma append_message_ok (m : message) (s : session_state) (msgs : thread) :
  current_messages s = Ok msgs ->
  append_message m s
  = Ok {| chats := store (current_chat s) (msgs ++ [m])%list (chats s);
          current_chat := current_chat s |}.
Proof. unfold append_message. now intros ->. Qed.

Lemma current_messages_store (name : string) (t : thread)
    (c : list (string * thread)) :
  current_messages {| chats := store name t c; current_chat := name |} = Ok t.
Proof. unfold current_messages. cbn [chats current_chat]. now rewrite lookup_store_same. Qed.

Lemma current_messages_listed (s : session_state) (msgs : thread) :
  current_messages s = Ok msgs -> In (current_chat s) (chat_names s).
Proof.
  unfold current_messages.
  destruct (lookup (current_chat s) (chats s)) as [t|] eqn:E; [| discriminate].
  intros _. exact (proj1 (lookup_listed _ _ _ E)).
Qed.

(** The state after the message of the user, and after the reply. *)
Lemma chat_turn_states (W : world) (w : widgets) (s : session_state)
    (prompt : string) (msgs : thread) :
  submitted w = Some prompt ->
  current_messages s = Ok msgs ->
  script W w (Some s)
  = let s1 := {| chats := store (current_chat s) (msgs ++ [user prompt])%list (chats s);
                 current_chat := current_chat s |} in
    match reply_to W prompt with
    | (Raised e, sent) =>
        {| state := s1; displayed := map display msgs; requests := sent; inbox := [];
           ending_of := raised e |}
    | (Ok reply, sent) =>
        {| state := {| chats := store (current_chat s)
                                  ((msgs ++ [user prompt]) ++ [assistant reply])%list
                                  (chats s1);
                       current_chat := current_chat s |};
           displayed := map display msgs; requests := sent; inbox := [];
           ending_of := rerun |}
    end.
Proof.
  intros Hs Hc. unfold script. cbn [init]. rewrite Hc, Hs.
  rewrite (append_message_ok _ _ _ Hc). cbv zeta.
  destruct (reply_to W prompt) as [[reply|e] sent]; [| reflexivity].
  now rewrite (append_message_ok _ _ _ (current_messages_store _ _ _)).
Qed.

(** X14.  A chat turn touches the thread on display and no other.  The
    prompt is appended to it as a user message before the backend is
    asked; when the reply is computed it is appended as an assistant
    message and the script reruns; when computing the reply raises, the
    run ends with that exception and the prompt stays in the thread
    without an answer.  The requests of the run are those of the reply. *)
Theorem chat_turn_appends (W : world) (w : widgets) (s : session_state)
    (prompt : string) (msgs : thread) :
  submitted w = Some prompt ->
  current_messages s = Ok msgs ->
  let r := script W w (Some s) in
  requests r = snd (reply_to W prompt)
  /\ chat_names (state r) = chat_names s
  /\ current_chat (state r) = current_chat s
  /\ (forall name, name <> current_chat s ->
        lookup name (chats (state r)) = lookup name (chats s))
  /\ (forall reply, fst (reply_to W prompt) = Ok reply ->
        current_messages (state r)
        = Ok (msgs ++ [user prompt; assistant reply])%list
        /\ ending_of r = rerun)
  /\ (forall e, fst (reply_to W prompt) = Raised e ->
        current_messages (state r) = Ok (msgs ++ [user prompt])%list
        /\ ending_of r = raised e).
Proof.
  intros Hs Hc r. unfold r. rewrite (chat_turn_states W w s prompt msgs Hs Hc).
  pose proof (current_messages_listed s msgs Hc) as Hin. cbv zeta.
  destruct (reply_to W prompt) as [[reply|e] sent];
    cbn [state requests ending_of fst snd chats current_chat].
  - split; [reflexivity | split; [| split; [reflexivity | split; [| split]]]].
    + unfold chat_names. cbn [chats].
      rewrite store_names_listed; rewrite store_names_listed; auto.
    + intros name Hn. now rewrite !lookup_store_other.
    + intros reply' [= <-]. rewrite current_messages_store, <- app_assoc.
      now split.
    + discriminate.
  - split; [reflexivity | split; [| split; [reflexivity | split; [| split]]]].
    + unfold chat_names. cbn [chats]. now rewrite store_names_listed.
    + intros name Hn. now rewrite lookup_store_other.
    + discriminate.
    + intros e' [= <-]. rewrite current_messages_store. now split.
Qed.

Lemma chat_turn_appends_witness :
  let W := fixed_network (Raised (Exn "ConnectionError" "Connection refused")) in
  let r := script W (typed "hello") (Some initial) in
  current_messages (state r)
  = Ok [assistant greeting; user "hello"; assistant help_reply]
  /\ ending_of r = rerun.
Proof.
  intros W r.
  exact (proj1 (proj2 (proj2 (proj2 (proj2
           (chat_turn_appends W (typed "hello") initial "hello" [assistant greeting]
              eq_refl eq_refl))))) help_reply eq_refl).
Defined.

Lemma script_sidebar (W : world) (w : widgets) (s : session_state) :
  well_formed s -> submitted w = None ->
  exists msgs,
    current_messages s = Ok msgs
    /\ script W w (Some s)
       = if new_chat_button w then
           {| state := new_chat s; displayed := map display msgs; requests := [];
              inbox := []; ending_of := rerun |}
         else
           match choose w s with
           | Raised e =>
               {| state := s; displayed := map display msgs; requests := [];
                  inbox := []; ending_of := raised e |}
           | Ok s1 =>
               if clear_chat_button w then
                 {| state := clear_chat s1; displayed := map display msgs;
                    requests := []; inbox := []; ending_of := rerun |}
               else
                 match list_emails W 5 with
                 | (Raised e, sent) =>
                     {| state := s1; displayed := map display msgs; requests := sent;
                        inbox := []; ending_of := raised e |}
                 | (Ok data, sent) =>
                     let (items, failure) := show_inbox W data in
                     {| state := s1; displayed := map display msgs; requests := sent;
                        inbox := items;
                        ending_of := match failure with
                                     | Some e => raised e
                                     | None => completed
                                     end |}
                 end
           end.
Proof.
  intros H Hs. destruct (well_formed_current s H) as [msgs [E _]].
  exists msgs. split; [exact E |]. unfold script. cbn [init]. now rewrite E, Hs.
Qed.

(** X15.  New Chat never overwrites a thread: in every reachable state
    of a session with n threads, pressing the button adds the thread
    "Chat n+1" after the others, holding the one greeting of a new chat,
    and puts it on display; every thread keeps its messages; the run sends
    no request and ends with a rerun. *)
Theorem new_chat_keeps_threads (W : world) (w : widgets) (s : session_state) :
  reachable s -> submitted w = None -> new_chat_button w = true ->
  let r := script W w (Some s) in
  let new_name := "Chat " ++ str_of_Z (Z.of_nat (List.length (chats s)) + 1) in
  chats (state r)
    = (chats s
       ++ [(new_name, [assistant "New chat started. Hi 👋, how can I help you?"])])%list
  /\ current_chat (state r) = new_name
  /\ (forall name t, lookup name (chats s) = Some t ->
        lookup name (chats (state r)) = Some t)
  /\ requests r = [] /\ ending_of r = rerun.
Proof.
  intros R Hs Hb r new_name. pose proof (reachable_well_formed s R) as H.
  destruct (script_sidebar W w s H Hs) as [msgs [_ E]]. unfold r. rewrite E, Hb.
  cbn [state requests ending_of]. split; [| split; [| split; [| split]]];
    try reflexivity.
  - now apply new_chat_chats.
  - intros name t L. unfold new_chat. cbn [chats].
    rewrite lookup_store_other; [exact L |].
    intros ->. apply (new_chat_unlisted s H). exact (proj1 (lookup_listed _ _ _ L)).
Qed.

Lemma new_chat_keeps_threads_witness :
  let W := fixed_network (Raised (Exn "ConnectionError" "Connection refused")) in
  let s := state (script W (typed "hello") None) in
  chats (state (script W (pressed true false) (Some s)))
  = [("Chat 1", [assistant greeting; user "hello"; assistant help_reply]);
     ("Chat 2", [assistant "New chat started. Hi 👋, how can I help you?"])].
Proof.
  intros W s.
  exact (proj1 (new_chat_keeps_threads W (pressed true false) s
                  (first_run W (typed "hello") (honest_default _ _ _))
                  eq_refl eq_refl)).
Defined.

(** X16.  Clear Chat resets the thread that the radio selects in this
    run, and only that one: it then holds the one message of a cleared
    chat and is on display, every other thread keeps its messages, and no
    thread is added or removed; the run sends no request and ends with a
    rerun. *)
Theorem clear_chat_resets_selected (W : world) (w : widgets) (s : session_state) :
  reachable s -> honest w ->
  submitted w = None -> new_chat_button w = false -> clear_chat_button w = true ->
  let r := script W w (Some s) in
  let selected := current_chat (state r) in
  In selected (chat_names s)
  /\ (exists i, index_of (current_chat s) (chat_names s) = Some i
                /\ selected = radio w (chat_names s) i)
  /\ current_messages (state r)
     = Ok [assistant "Chat cleared. Hi 👋, how can I help you now?"]
  /\ (forall name, name <> selected ->
        lookup name (chats (state r)) = lookup name (chats s))
  /\ chat_names (state r) = chat_names s
  /\ requests r = [] /\ ending_of r = rerun.
Proof.
  intros R Hw Hs Hn Hc r. pose proof (reachable_well_formed s R) as H.
  destruct (script_sidebar W w s H Hs) as [msgs [_ E]].
  destruct (choose_listed w s (proj1 (proj2 H)) Hw) as [i [Hi [Hch Hin]]].
  unfold r. rewrite E, Hn, Hch, Hc. unfold clear_chat.
  cbn [state requests ending_of chats current_chat].
  split; [exact Hin | split; [now exists i | split; [| split; [| split]]]].
  - apply current_messages_store.
  - intros name Hne. now apply lookup_store_other.
  - unfold chat_names. cbn [chats]. now apply store_names_listed.
  - now split.
Qed.

Lemma clear_chat_resets_selected_witness :
  let W := fixed_network (Raised (Exn "ConnectionError" "Connection refused")) in
  let s := state (script W (typed "hello") None) in
  current_messages (state (script W (pressed false true) (Some s)))
  = Ok [assistant "Chat cleared. Hi 👋, how can I help you now?"].
Proof.
  intros W s.
  exact (proj1 (proj2 (proj2
           (clear_chat_resets_selected W (pressed false true) s
              (first_run W (typed "hello") (honest_default _ _ _))
              (honest_default _ _ _) eq_refl eq_refl eq_refl)))).
Defined.








End Sessions.


(* ------------------------------------------------------------------ *)
(** ** The list of the backend in the chat *)
(* ------------------------------------------------------------------ *)

Section BackendToChat.

Lemma shape_is_dict (m : dict) (s : string) :
  simplified_shape m s = PDict (fields_of (simplified_shape m s)).
Proof. reflexivity. Qed.

Lemma entry_text_shape (W : Streamlit_app.world) (i : Z) (m : dict) (s : string) :
  exists tail,
    entry_text W i (fields_of (simplified_shape m s))
    = "**" ++ str_of_Z i ++ ". " ++ py_str (Streamlit_app.repr W) (sent_subject m)
      ++ "**" ++ Streamlit_app.nl ++ tail.
Proof. eexists. unfold entry_text. reflexivity. Qed.

(** X18.  The list of the backend in the chat.  When the items of a
    successful response of the list handler reach the list branch of the
    chat as they are, the reply is the header followed by one entry per
    message of the mail client, in order.  The subject line of an entry
    shows the subject that the handler sent; the handler always sends the
    "subject" field, so for a message without subject, title and
    header_subject the line reads "None": the "(No subject)" of the
    formatter is not used. *)
Theorem backend_list_in_chat (B : Main.world) (W : Streamlit_app.world)
    (GET : Main.QueryDict) (msgs : list dict) :
  Main.list_messages B (Given (Main.qd_get "q" GET)) (Main.parse_limit GET 10)
    = Ok msgs ->
  Forall (fun m => body_text m <> None) msgs ->
  exists items es,
    fst (Main.list_view B GET) = Ok (Main.respond (PList items))
    /\ Streamlit_app.list_reply W (PList items)
       = Ok (Streamlit_app.list_header ++ String.concat "" es)
    /\ List.length es = List.length msgs
    /\ forall k m, nth_error msgs k = Some m ->
         (exists tail,
            nth_error es k
            = Some ("**" ++ str_of_Z (Z.of_nat k + 1) ++ ". "
                    ++ py_str (Streamlit_app.repr W) (sent_subject m)
                    ++ "**" ++ Streamlit_app.nl ++ tail))
         /\ (dict_lookup "subject" m = None -> dict_lookup "title" m = None ->
             dict_lookup "header_subject" m = None ->
             py_str (Streamlit_app.repr W) (sent_subject m) = "None").
Proof.
  intros Hl Hb.
  set (shape := fun m => simplified_shape m
                           (match body_text m with Some s => s | None => "" end)).
  set (ds := map (fun m => fields_of (shape m)) msgs).
  assert (Hitems : map shape msgs = map PDict ds).
  { unfold ds. rewrite map_map. apply map_ext. intros m. apply shape_is_dict. }
  exists (map shape msgs), (entries W 1 ds). split; [| split; [| split]].
  - exact (list_view_shapes B GET msgs Hl Hb).
  - rewrite Hitems. unfold Streamlit_app.list_reply. rewrite has_error_dicts. cbn.
    apply add_entries_dicts.
  - unfold ds. now rewrite entries_length, length_map.
  - intros k m Hk. split.
    + assert (Hd : nth_error ds k = Some (fields_of (shape m))).
      { unfold ds. now rewrite nth_error_map, Hk. }
      rewrite (entries_nth W ds 1 k _ Hd).
      destruct (entry_text_shape W (1 + Z.of_nat k) m
                  (match body_text m with Some s => s | None => "" end))
        as [tail E].
      exists tail. unfold shape. rewrite E.
      replace (1 + Z.of_nat k)%Z with (Z.of_nat k + 1)%Z by lia. reflexivity.
    + intros H1 H2 H3. unfold sent_subject, dict_get, dict_get_default.
      now rewrite H1, H2, H3.
Qed.

Lemma backend_list_in_chat_witness :
  let msgs := [[("id", PStr "1"); ("subject", PStr "Lunch"); ("body", PStr "Noon?")];
               [("id", PStr "2"); ("from", PStr "bob@example.com")]] in
  let B := fixed_backend (Ok PNone) (Ok msgs) None in
  let W := fixed_network (Raised (Exn "ConnectionError" "Connection refused")) in
  exists items first second,
    fst (Main.list_view B []) = Ok (Main.respond (PList items))
    /\ Streamlit_app.list_reply W (PList items)
       = Ok (Streamlit_app.list_header ++ first ++ second)
    /\ (exists tail, first = "**1. Lunch**" ++ Streamlit_app.nl ++ tail)
    /\ (exists tail, second = "**2. None**" ++ Streamlit_app.nl ++ tail).
Proof.
  intros msgs B W.
  destruct (backend_list_in_chat B W [] msgs eq_refl) as [items [es [E [R [L N]]]]].
  - repeat constructor; discriminate.
  - destruct es as [|first [|second [|third es]]]; try discriminate L.
    exists items, first, second. split; [exact E | split; [| split]].
    + rewrite R. reflexivity.
    + destruct (N 0%nat _ eq_refl) as [[tail H] _]. injection H as ->.
      now exists tail.
    + destruct (N 1%nat _ eq_refl) as [[tail H] _]. injection H as ->.
      now exists tail.
Defined.

End BackendToChat.
